(** * The graph IR of graph_builder: Node, Operator, Variable

    A shallow embedding of [src/graph_builder/graph/graph.py].

    Python objects live in a heap and are named by references, so that
    object identity ([is], [is not]) is equality of references and a
    mutation made through one reference is seen through every other one.
    Every method is a function from the heap to an outcome and a heap: the
    heap that comes with a raised exception is the heap the caller observes
    when it catches it, mutations made before the [raise] included. *)

From stdpp Require Import base option list gmap strings.
From Stdlib Require Import ZArith.

Open Scope Z_scope.

(** ** Python values, exceptions and dicts *)

(** The messages of the [KeyError]s raised in graph.py, and the one raised
    by [set.remove] on an absent element. *)
Inductive key_error :=
  | NotInputOf          (* f"'{name}' is not input of {self}" *)
  | NotOutputOf         (* f"'{name}' is not output of {self}" *)
  | AlreadyRegistered   (* f"{var} has been registered as ... output already." *)
  | MissingElement      (* set.remove(x) with x absent *)
  | MissingKey.         (* dict.pop(k) with k absent *)

Inductive exn :=
  | KeyError (msg : key_error)
  | UnboundLocalError
  | AssertionError
  | TypeError
  | AttributeError.

(** What a call does: it returns, it raises, or it is [Stuck] on a reference
    that names no object.  [Stuck] is not a Python behaviour (a Python
    reference always names a live object); the theorems assume live
    references and show that it does not arise. *)
Inductive outcome (A : Type) :=
  | Return (a : A)
  | Raise (e : exn)
  | Stuck.
Arguments Return {A} a.
Arguments Raise {A} e.
Arguments Stuck {A}.

(** A parameter value ([Dict[str, any]]). *)
Inductive value :=
  | VStr (s : string)
  | VInt (z : Z).

(** A Python [dict]: its items in insertion order.  Keys are unique
    ([dict_wf]); assignment to a present key keeps the key's position. *)
Abbreviation dict K V := (list (K * V)) (only parsing).

Section Dict.
Context {K V : Type} `{EqDecision K}.

Definition dict_wf (d : dict K V) : Prop := NoDup d.*1.

(* d.get(k) *)
Fixpoint dict_get (k : K) (d : dict K V) : option V :=
  match d with
  | [] => None
  | (k', v) :: r => if decide (k' = k) then Some v else dict_get k r
  end.

(* d[k] = v *)
Fixpoint dict_set (k : K) (v : V) (d : dict K V) : dict K V :=
  match d with
  | [] => [(k, v)]
  | (k', v') :: r =>
      if decide (k' = k) then (k', v) :: r else (k', v') :: dict_set k v r
  end.

(* d without the item of key k *)
Fixpoint dict_del (k : K) (d : dict K V) : dict K V :=
  match d with
  | [] => []
  | (k', v') :: r => if decide (k' = k) then r else (k', v') :: dict_del k r
  end.

(* d.pop(k): the value and the remaining dict, None for KeyError *)
Definition dict_pop (k : K) (d : dict K V) : option (V * dict K V) :=
  match dict_get k d with
  | Some v => Some (v, dict_del k d)
  | None => None
  end.

(* dict(pairs) *)
Definition dict_of_pairs (l : list (K * V)) : dict K V :=
  foldl (λ d kv, dict_set kv.1 kv.2 d) [] l.
End Dict.

(** ** The axis-order trait (external: graph_builder.graph.variables) *)

(** Modelled from the spec: an axis is a named axis of a shape; the module
    that declares the axes is not part of the source. *)
Definition Axis := string.

(** Modelled from the spec: the axis-order trait [VA.AxisOrder], which is
    declared outside graph.py: "an ordered list of named axes", with its
    declared axis count [ndim]. *)
Record AxisOrder := mkAxisOrder {
  ndim : nat;
  axes : list Axis;
}.

Global Instance AxisOrder_eq_dec : EqDecision AxisOrder.
Proof. solve_decision. Defined.

(** Modelled from the spec: [AxisOrder.get_shape_dict], "a mapping from a
    variable's shape to a name→size mapping": the axes of the order paired
    with the entries of the shape, position by position. *)
Definition get_shape_dict (cls : AxisOrder) (shape : list Z) : dict Axis Z :=
  dict_of_pairs (zip (axes cls) shape).

(** ** Objects and the heap *)

Definition oref := positive.   (* reference to an Operator *)
Definition vref := positive.   (* reference to a Variable *)

(** class Node: [parameters] is [None] or a dict. *)
Record Node := mkNode {
  attributes : list AxisOrder;
  parameters : option (dict string value);
}.

(** class Operator(Node) *)
Record Operator := mkOperator {
  op_node : Node;
  name : string;
  inputs : dict string vref;
  outputs : dict string vref;
}.

(** class Variable(Node).  [Variable] is a reserved word of Rocq: the record
    is named [Var]. *)
Record Var := mkVariable {
  var_node : Node;
  shape : list Z;
  input_to : gset oref;
  output_from : option oref;
  axis_order : AxisOrder;
}.

Record heap := mkHeap {
  operators : gmap oref Operator;
  variables : gmap vref Var;
}.

Definition set_inputs (d : dict string vref) (o : Operator) : Operator :=
  mkOperator (op_node o) (name o) d (outputs o).
Definition set_outputs (d : dict string vref) (o : Operator) : Operator :=
  mkOperator (op_node o) (name o) (inputs o) d.
Definition set_input_to (s : gset oref) (v : Var) : Var :=
  mkVariable (var_node v) (shape v) s (output_from v) (axis_order v).
Definition set_output_from (p : option oref) (v : Var) : Var :=
  mkVariable (var_node v) (shape v) (input_to v) p (axis_order v).
Definition set_shape_order (s : list Z) (o : AxisOrder) (v : Var) : Var :=
  mkVariable (var_node v) s (input_to v) (output_from v) o.

(** ** The monad of methods: heap passing with exceptions *)

Definition M (A : Type) : Type := heap → outcome A * heap.

Definition raise {A} (e : exn) : M A := λ h, (Raise e, h).

Global Instance M_ret : MRet M := λ A a h, (Return a, h).
Global Instance M_bind : MBind M := λ A B f m h,
  match m h with
  | (Return a, h') => f a h'
  | (Raise e, h') => (Raise e, h')
  | (Stuck, h') => (Stuck, h')
  end.

(* the outcome of a pure computation, in the current heap *)
Definition lift {A} (r : outcome A) : M A := λ h, (r, h).

Definition read_op (r : oref) : M Operator :=
  λ h, match operators h !! r with
       | Some o => (Return o, h)
       | None => (Stuck, h)
       end.
Definition read_var (r : vref) : M Var :=
  λ h, match variables h !! r with
       | Some v => (Return v, h)
       | None => (Stuck, h)
       end.
Definition write_op (r : oref) (o : Operator) : M unit :=
  λ h, (Return tt, mkHeap (<[r := o]> (operators h)) (variables h)).
Definition write_var (r : vref) (v : Var) : M unit :=
  λ h, (Return tt, mkHeap (operators h) (<[r := v]> (variables h))).

(* a new object, at a reference that names no object yet *)
Definition alloc_op (o : Operator) : M oref :=
  λ h, let r := fresh (dom (operators h)) in
       (Return r, mkHeap (<[r := o]> (operators h)) (variables h)).
Definition alloc_var (v : Var) : M vref :=
  λ h, let r := fresh (dom (variables h)) in
       (Return r, mkHeap (operators h) (<[r := v]> (variables h))).

(* assert b *)
Definition assert (b : bool) : M unit :=
  if b then mret tt else raise AssertionError.

(** ** Constructors *)

(** [Node.__init__(self, parameters=None)]; [cls_attributes] is the class
    attribute [attributes] of the class of [self], copied into the
    instance. *)
Definition Node_init (cls_attributes : list AxisOrder)
    (parameters : option (dict string value)) : Node :=
  mkNode cls_attributes
         (Some (match parameters with Some p => p | None => [] end)).

(** [Operator.__init__(self, name, parameters=None)]: the base constructor
    runs first, then the assignments of the body, in their order.  The class
    attribute [attributes] of Operator is the empty list. *)
Definition Operator_init (name : string)
    (parameters : option (dict string value)) : Operator :=
  let node := Node_init [] parameters in               (* super().__init__(parameters) *)
  let node := mkNode (attributes node) parameters in   (* self.parameters = parameters *)
  mkOperator node name [] [].

(** [Operator(name, parameters)]: a new object at a fresh reference. *)
Definition Operator_new (name : string)
    (parameters : option (dict string value)) : M oref :=
  alloc_op (Operator_init name parameters).

(** [Variable.__init__(self, shape, axis_order)].  [issubclass(axis_order,
    VA.AxisOrder)] holds by typing.  The class attribute [output_from] is
    [None]; the last assertion decides whether the object is returned. *)
Definition Variable_init (shape : list Z) (axis_order : AxisOrder)
    : outcome Var :=
  let node := Node_init [] None in                                   (* super().__init__() *)
  let node := mkNode (axis_order :: attributes node) (parameters node) in
  if decide (ndim axis_order = length shape)
  then Return (mkVariable node shape ∅ None axis_order)
  else Raise AssertionError.

(** [Variable(shape, axis_order)] *)
Definition Variable_new (shape : list Z) (axis_order : AxisOrder) : M vref :=
  v ← lift (Variable_init shape axis_order);
  alloc_var v.

(** ** Reading the parameter bag

    Python's [key in p], [p[key]] and [p.get(key)] where [p] is the
    [parameters] attribute of a node: [None] or a dict. *)
Definition py_contains (key : string) (p : option (dict string value))
    : outcome bool :=
  match p with
  | None => Raise TypeError          (* argument of type 'NoneType' is not iterable *)
  | Some d => Return (bool_decide (is_Some (dict_get key d)))
  end.

Definition py_getitem (key : string) (p : option (dict string value))
    : outcome value :=
  match p with
  | None => Raise TypeError          (* 'NoneType' object is not subscriptable *)
  | Some d =>
      match dict_get key d with
      | Some v => Return v
      | None => Raise (KeyError MissingKey)
      end
  end.

Definition py_get (key : string) (p : option (dict string value))
    : outcome (option value) :=
  match p with
  | None => Raise AttributeError     (* 'NoneType' object has no attribute 'get' *)
  | Some d => Return (dict_get key d)
  end.

(** ** class Operator: the link protocol *)

(** The loop of [get_input_name] and [get_output_name]:
<<
    for name, v in items:
        if v is not var: continue
        return name
    else:
        raise KeyError(f"'{name}' is not ... of {self}")
>>
    [name] is the loop variable: [None] while no iteration has bound it.
    The message of the [else] branch reads it, so with no item at all the
    f-string raises [UnboundLocalError] before a [KeyError] is built. *)
Fixpoint find_name (items : dict string vref) (var : vref)
    (name : option string) (msg : key_error) : outcome string :=
  match items with
  | [] =>
      match name with
      | None => Raise UnboundLocalError
      | Some _ => Raise (KeyError msg)
      end
  | (n, v) :: rest =>
      if decide (v = var) then Return n else find_name rest var (Some n) msg
  end.

Definition get_input_name (self : oref) (var : vref) : M string :=
  o ← read_op self;
  lift (find_name (inputs o) var None NotInputOf).

Definition get_output_name (self : oref) (var : vref) : M string :=
  o ← read_op self;
  lift (find_name (outputs o) var None NotOutputOf).

Definition append_input (self : oref) (name : string) (var : vref) : M unit :=
  o ← read_op self;
  write_op self (set_inputs (dict_set name var (inputs o)) o);;
  v ← read_var var;
  write_var var (set_input_to ({[self]} ∪ input_to v) v).

Definition remove_input (self : oref) (var : vref) : M unit :=
  name ← get_input_name self var;
  o ← read_op self;
  match dict_pop name (inputs o) with
  | None => raise (KeyError MissingKey)
  | Some (_, d) =>
      write_op self (set_inputs d o);;
      v ← read_var var;
      if decide (self ∈ input_to v)
      then write_var var (set_input_to (input_to v ∖ {[self]}) v)
      else raise (KeyError MissingElement)
  end.

Definition replace_input (self : oref) (v_old v_new : vref) : M unit :=
  name ← get_input_name self v_old;
  remove_input self v_old;;
  append_input self name v_new.

Definition append_output (self : oref) (name : string) (var : vref) : M unit :=
  v ← read_var var;
  match output_from v with
  | Some _ => raise (KeyError AlreadyRegistered)
  | None =>
      o ← read_op self;
      write_op self (set_outputs (dict_set name var (outputs o)) o);;
      v ← read_var var;
      write_var var (set_output_from (Some self) v)
  end.

Definition remove_output (self : oref) (var : vref) : M unit :=
  name ← get_output_name self var;
  o ← read_op self;
  match dict_pop name (outputs o) with
  | None => raise (KeyError MissingKey)
  | Some (var, d) =>
      write_op self (set_outputs d o);;
      v ← read_var var;
      write_var var (set_output_from None v)
  end.

Definition replace_output (self : oref) (v_old v_new : vref) : M unit :=
  name ← get_output_name self v_old;
  remove_output self v_old;;
  append_output self name v_new.

(** ** class Variable *)

(** The property [name]:
    [self.parameters["name"] if "name" in self.parameters else ""]. *)
Definition Variable_name (self : vref) : M value :=
  v ← read_var self;
  b ← lift (py_contains "name" (parameters (var_node v)));
  if (b : bool) then lift (py_getitem "name" (parameters (var_node v)))
  else mret (VStr "").

(** The setter of [name]: [self.parameters["name"] = name].  Item
    assignment on [None] raises [TypeError]. *)
Definition Variable_set_name (self : vref) (name : string) : M unit :=
  v ← read_var self;
  match parameters (var_node v) with
  | None => raise TypeError
  | Some d =>
      write_var self
        (mkVariable
           (mkNode (attributes (var_node v))
                   (Some (dict_set "name" (VStr name) d)))
           (shape v) (input_to v) (output_from v) (axis_order v))
  end.

(** The property [ndim]: [len(self.shape)]. *)
Definition Variable_ndim (self : vref) : M nat :=
  v ← read_var self;
  mret (length (shape v)).

(** The property [shape_dict]: [self.axis_order.get_shape_dict(self)]. *)
Definition shape_dict (v : Var) : dict Axis Z :=
  get_shape_dict (axis_order v) (shape v).

(** The loop of [change_axis_order]:
<<
    for axis, size in current_shape_dict.items():
        if axis not in axis_order.axes:
            assert size == 1
>> *)
Fixpoint check_dropped (items : dict Axis Z) (axis_order : AxisOrder)
    : M unit :=
  match items with
  | [] => mret tt
  | (axis, size) :: rest =>
      (if decide (axis ∈ axes axis_order) then mret tt
       else assert (bool_decide (size = 1)));;
      check_dropped rest axis_order
  end.

Definition change_axis_order (self : vref) (axis_order : AxisOrder) : M unit :=
  v ← read_var self;
  let current_shape_dict := shape_dict v in
  let new_shape :=
    (λ axis, default 1 (dict_get axis current_shape_dict)) <$> axes axis_order in
  check_dropped current_shape_dict axis_order;;
  v ← read_var self;
  write_var self (set_shape_order new_shape axis_order v).

(** * Predicates of the statements *)

(** The first slot, in insertion order, that holds [var]. *)
Definition first_slot (items : dict string vref) (var : vref) : option string :=
  (λ p, p.2.1) <$> list_find (λ kv, kv.2 = var) items.

(** The slots of a dict that hold [var]. *)
Definition slots_holding (items : dict string vref) (var : vref)
    : dict string vref :=
  filter (λ kv, kv.2 = var) items.

(** Every Variable in a slot of [op.inputs] has [op] in its [input_to]. *)
Definition inputs_consistent (h : heap) : Prop :=
  ∀ op O s var,
    operators h !! op = Some O → (s, var) ∈ inputs O →
    ∃ V, variables h !! var = Some V ∧ op ∈ input_to V.

(** Two heaps with the same [inputs] and the same [input_to] everywhere. *)
Definition same_inputs (h h' : heap) : Prop :=
  (∀ op, inputs <$> operators h' !! op = inputs <$> operators h !! op) ∧
  (∀ var, input_to <$> variables h' !! var = input_to <$> variables h !! var).

(** Some axis of the mapping [d] is absent from [order] and has a size
    other than 1. *)
Definition drops_non_unit (d : dict Axis Z) (order : AxisOrder) : Prop :=
  ∃ axis size, (axis, size) ∈ d ∧ (axis ∉ axes order) ∧ size ≠ 1.

(** The shape [change_axis_order] builds: for each axis of [order], its size
    in the mapping [d], 1 when the mapping has no such axis. *)
Definition reshaped (d : dict Axis Z) (order : AxisOrder) : list Z :=
  (λ axis, default 1 (dict_get axis d)) <$> axes order.

(** The single-writer invariant: the slots of [op.outputs] hold distinct
    Variables, and each of them has [op] as its [output_from].  (The keys of
    [op.outputs] are unique, as in every Python dict.) *)
Definition outputs_consistent (h : heap) : Prop :=
  ∀ op O,
    operators h !! op = Some O →
    dict_wf (outputs O) ∧ NoDup (outputs O).*2 ∧
    ∀ s var, (s, var) ∈ outputs O →
      ∃ V, variables h !! var = Some V ∧ output_from V = Some op.

(** Two heaps with the same [outputs] and the same [output_from]
    everywhere. *)
Definition same_outputs (h h' : heap) : Prop :=
  (∀ op, outputs <$> operators h' !! op = outputs <$> operators h !! op) ∧
  (∀ var, output_from <$> variables h' !! var
          = output_from <$> variables h !! var).

(** The number of elements of a shape: the product of its entries. *)
Definition shape_product (shape : list Z) : Z := foldr Z.mul 1 shape.

(** * Example graphs, built with the constructors and the link protocol *)

Definition NCHW : AxisOrder := mkAxisOrder 4 ["N"; "C"; "H"; "W"].
Definition CHW : AxisOrder := mkAxisOrder 3 ["C"; "H"; "W"].

Definition empty_heap : heap := mkHeap ∅ ∅.

(** Operators [conv] (reference 1) and [conv2] (reference 2), Variables [v]
    (reference 1) and [w] (reference 2), both of shape [1,3,8,8] under
    NCHW, not linked. *)
Definition conv : oref := 1%positive.
Definition conv2 : oref := 2%positive.
Definition v : vref := 1%positive.
Definition w : vref := 2%positive.

Definition build_unlinked : M vref :=
  Operator_new "conv" None;;
  Operator_new "conv2" None;;
  Variable_new [1; 3; 8; 8] NCHW;;
  Variable_new [1; 3; 8; 8] NCHW.

Definition unlinked : heap := (build_unlinked empty_heap).2.

(** [conv.append_output("y", v)] *)
Definition conv_y_v : heap := (append_output conv "y" v unlinked).2.

(** [conv.append_output("y", v)] and [conv2.append_output("y", w)] *)
Definition two_producers : heap := (append_output conv2 "y" w conv_y_v).2.

(** [conv.append_input("x", v)] *)
Definition conv_x_v : heap := (append_input conv "x" v unlinked).2.

(** [conv.append_input("a", v)] then [conv.append_input("b", v)]: the same
    Variable in two input slots of one Operator. *)
Definition conv_ab_v : heap :=
  ((append_input conv "a" v;; append_input conv "b" v) unlinked).2.

(** [Variable([3, 8, 8], CHW)] in an empty heap; its reference is [v]. *)
Definition chw_heap : heap := (Variable_new [3; 8; 8] CHW empty_heap).2.

(** * Properties *)

(** ** Dicts *)

Section DictFacts.
Context {K V : Type} `{EqDecision K}.
Implicit Types (d : dict K V) (k : K) (v : V).

Lemma dict_get_set k k' v d :
  dict_get k (dict_set k' v d) = if decide (k' = k) then Some v else dict_get k d.
Proof.
  induction d as [|[k0 v0] d IH]; simpl.
  - by destruct (decide (k' = k)).
  - destruct (decide (k0 = k')) as [->|Hne]; simpl.
    + by destruct (decide (k' = k)).
    + destruct (decide (k0 = k)) as [->|Hne'].
      * by rewrite decide_False by done.
      * apply IH.
Qed.

Lemma dict_get_set_eq k v d : dict_get k (dict_set k v d) = Some v.
Proof. rewrite dict_get_set. by rewrite decide_True. Qed.

Lemma dict_get_None k d : k ∉ d.*1 → dict_get k d = None.
Proof.
  induction d as [|[k0 v0] d IH]; simpl; [done|].
  rewrite not_elem_of_cons. intros [Hne Hk].
  rewrite decide_False by done. auto.
Qed.

Lemma dict_get_Some_elem k v d : dict_get k d = Some v → (k, v) ∈ d.
Proof.
  induction d as [|[k0 v0] d IH]; simpl; [done|].
  destruct (decide (k0 = k)) as [->|Hne].
  - intros [= ->]. left.
  - intros Hg. right. auto.
Qed.

Lemma dict_elem_get k v d : dict_wf d → (k, v) ∈ d → dict_get k d = Some v.
Proof.
  unfold dict_wf. induction d as [|[k0 v0] d IH]; simpl.
  - intros _ Hin. by apply elem_of_nil in Hin.
  - rewrite NoDup_cons. intros [Hk0 Hnd] Hin.
    apply elem_of_cons in Hin as [[= -> ->]|Hin].
    + by rewrite decide_True.
    + destruct (decide (k0 = k)) as [->|Hne]; [|auto].
      exfalso. apply Hk0. apply list_elem_of_fmap. by exists (k, v).
Qed.

Lemma dict_set_keys k v d :
  (dict_set k v d).*1 = if decide (k ∈ d.*1) then d.*1 else d.*1 ++ [k].
Proof.
  induction d as [|[k0 v0] d IH].
  - done.
  - cbn [dict_set]. destruct (decide (k0 = k)) as [->|Hne].
    + rewrite decide_True; [done|]. left.
    + rewrite !fmap_cons, IH. cbn [fst].
      destruct (decide (k ∈ d.*1)) as [Hin|Hin].
      * rewrite decide_True; [done|]. by right.
      * rewrite decide_False; [done|].
        rewrite not_elem_of_cons. split; [congruence|done].
Qed.

Lemma dict_set_wf k v d : dict_wf d → dict_wf (dict_set k v d).
Proof.
  unfold dict_wf. rewrite dict_set_keys. intros Hnd.
  destruct (decide (k ∈ d.*1)) as [Hin|Hin]; [done|].
  apply NoDup_app. split_and!; [done| |apply NoDup_singleton].
  intros x Hx Hx'. apply list_elem_of_singleton in Hx' as ->. done.
Qed.

Lemma dict_set_elem k v k' v' d :
  (k', v') ∈ dict_set k v d → (k', v') = (k, v) ∨ (k', v') ∈ d.
Proof.
  induction d as [|[k0 v0] d IH]; simpl.
  - intros Hin. apply list_elem_of_singleton in Hin. by left.
  - destruct (decide (k0 = k)) as [->|Hne]; rewrite !elem_of_cons.
    + intros [?|?]; [by left|right; by right].
    + intros [?|Hin]; [right; by left|].
      destruct (IH Hin); [by left|right; by right].
Qed.

Lemma dict_del_elem k k' v' d : (k', v') ∈ dict_del k d → (k', v') ∈ d.
Proof.
  induction d as [|[k0 v0] d IH]; simpl; [done|].
  destruct (decide (k0 = k)) as [->|Hne]; rewrite !elem_of_cons.
  - by right.
  - intros [?|?]; [by left|right; auto].
Qed.

Lemma dict_del_keys k d : dict_wf d → k ∉ (dict_del k d).*1.
Proof.
  unfold dict_wf. induction d as [|[k0 v0] d IH]; simpl.
  - intros _. apply not_elem_of_nil.
  - rewrite NoDup_cons. intros [Hk0 Hnd].
    destruct (decide (k0 = k)) as [->|Hne]; [done|].
    simpl. rewrite not_elem_of_cons. split; [congruence|auto].
Qed.

Lemma dict_del_wf k d : dict_wf d → dict_wf (dict_del k d).
Proof.
  unfold dict_wf. induction d as [|[k0 v0] d IH]; simpl; [done|].
  rewrite NoDup_cons. intros [Hk0 Hnd].
  destruct (decide (k0 = k)) as [->|Hne]; [done|].
  simpl. apply NoDup_cons. split; [|auto].
  intros Hin. apply Hk0. apply list_elem_of_fmap in Hin as [[k1 v1] [-> Hin]].
  apply dict_del_elem in Hin. apply list_elem_of_fmap. by exists (k1, v1).
Qed.

Lemma dict_of_pairs_wf (l : list (K * V)) : dict_wf (dict_of_pairs l).
Proof.
  unfold dict_of_pairs.
  assert (Hgen : ∀ acc, dict_wf acc →
            dict_wf (foldl (λ d kv, dict_set kv.1 kv.2 d) acc l)).
  { induction l as [|[k v] l IH]; simpl; [done|].
    intros acc Hacc. apply IH. by apply dict_set_wf. }
  apply Hgen. apply NoDup_nil_2.
Qed.
End DictFacts.

(** ** The reverse lookup *)

Section FindName.
Implicit Types (items : dict string vref) (var : vref) (msg : key_error).

Lemma find_name_first_slot items var nm msg s :
  first_slot items var = Some s → find_name items var nm msg = Return s.
Proof.
  unfold first_slot. revert nm.
  induction items as [|[n v] items IH]; intros nm; simpl; [done|].
  destruct (decide (v = var)) as [->|Hne]; simpl.
  - by intros [= ->].
  - destruct (list_find _ items) as [[i [n' v']]|] eqn:Hf; simpl; [|done].
    intros [= <-]. by apply IH.
Qed.

Lemma find_name_Return items var nm msg s :
  find_name items var nm msg = Return s → first_slot items var = Some s.
Proof.
  unfold first_slot. revert nm.
  induction items as [|[n v] items IH]; intros nm; simpl.
  - by destruct nm.
  - destruct (decide (v = var)) as [->|Hne]; simpl.
    + by intros [= ->].
    + intros Hf. apply IH in Hf.
      destruct (list_find _ items) as [[i [n' v']]|]; simpl in *; congruence.
Qed.

Lemma first_slot_elem items var s :
  first_slot items var = Some s → (s, var) ∈ items.
Proof.
  unfold first_slot.
  destruct (list_find _ items) as [[i [n v]]|] eqn:Hf; simpl; [|done].
  intros [= <-]. apply list_find_Some in Hf as (Hl & Hv & _).
  simpl in Hv. subst v. by eapply list_elem_of_lookup_2.
Qed.

Lemma first_slot_None items var : first_slot items var = None ↔ var ∉ items.*2.
Proof.
  unfold first_slot. rewrite fmap_None, list_find_None, Forall_forall.
  split.
  - intros Hall Hin. apply list_elem_of_fmap in Hin as [[n v] [-> Hin]].
    by apply (Hall _ Hin).
  - intros Hnin [n v] Hin Heq. simpl in Heq. subst v.
    apply Hnin. apply list_elem_of_fmap. by exists (n, var).
Qed.

Lemma first_slot_is_Some items var s :
  (s, var) ∈ items → is_Some (first_slot items var).
Proof.
  intros Hin. destruct (first_slot items var) eqn:Hf; [done|].
  apply first_slot_None in Hf. exfalso. apply Hf.
  apply list_elem_of_fmap. by exists (s, var).
Qed.

(** The lookup of an absent Variable: a [KeyError] once the loop has bound
    [name], an [UnboundLocalError] when it never ran. *)
Lemma find_name_absent items var nm msg :
  first_slot items var = None →
  find_name items var nm msg =
    match items, nm with
    | [], None => Raise UnboundLocalError
    | _, _ => Raise (KeyError msg)
    end.
Proof.
  unfold first_slot. revert nm.
  induction items as [|[n v] items IH]; intros nm; simpl.
  - by destruct nm.
  - destruct (decide (v = var)) as [->|Hne]; simpl; [done|].
    intros Hf. rewrite IH.
    + by destruct items.
    + by destruct (list_find _ items).
Qed.

Lemma find_name_not_Stuck items var nm msg : find_name items var nm msg ≠ Stuck.
Proof.
  revert nm. induction items as [|[n v] items IH]; intros nm; simpl.
  - by destruct nm.
  - by destruct (decide (v = var)).
Qed.

Lemma find_name_Raise items var nm msg e :
  find_name items var nm msg = Raise e →
  first_slot items var = None ∧ (e = UnboundLocalError ∨ e = KeyError msg).
Proof.
  intros Hf. destruct (first_slot items var) as [s|] eqn:Hs.
  - by rewrite (find_name_first_slot _ _ nm msg s Hs) in Hf.
  - split; [done|]. rewrite find_name_absent in Hf by done.
    destruct items, nm; naive_solver.
Qed.

(** In a dict, the first slot that holds [var] is a slot whose value is
    [var]. *)
Lemma first_slot_get items var s :
  dict_wf items → first_slot items var = Some s → dict_get s items = Some var.
Proof. intros Hwf Hs. apply dict_elem_get; [done|]. by apply first_slot_elem. Qed.
End FindName.

(** ** Running the methods on live references *)

Ltac unfold_M :=
  unfold mbind, M_bind, mret, M_ret, lift, raise, assert,
    read_op, read_var, write_op, write_var; cbn [operators variables].

Lemma dict_pop_elem {K V} `{EqDecision K} (k : K) (v : V) (d : dict K V) :
  (k, v) ∈ d → ∃ v', dict_pop k d = Some (v', dict_del k d).
Proof.
  intros Hin. unfold dict_pop.
  destruct (dict_get k d) as [v'|] eqn:Hg; [by exists v'|].
  exfalso. induction d as [|[k0 v0] d IH]; [by apply elem_of_nil in Hin|].
  simpl in Hg. destruct (decide (k0 = k)) as [->|Hne]; [done|].
  apply elem_of_cons in Hin as [[= -> ->]|Hin]; [done|auto].
Qed.

Section Run.
Variables (h : heap) (op : oref) (O : Operator).
Hypothesis Hop : operators h !! op = Some O.

Lemma get_input_name_run var :
  get_input_name op var h = (find_name (inputs O) var None NotInputOf, h).
Proof. unfold get_input_name. unfold_M. by rewrite Hop. Qed.

Lemma get_output_name_run var :
  get_output_name op var h = (find_name (outputs O) var None NotOutputOf, h).
Proof. unfold get_output_name. unfold_M. by rewrite Hop. Qed.

Lemma append_input_run s var V :
  variables h !! var = Some V →
  append_input op s var h =
    (Return tt,
     mkHeap (<[op := set_inputs (dict_set s var (inputs O)) O]> (operators h))
            (<[var := set_input_to ({[op]} ∪ input_to V) V]> (variables h))).
Proof. intros Hv. unfold append_input. unfold_M. by rewrite Hop, Hv. Qed.

Lemma remove_input_absent var :
  first_slot (inputs O) var = None →
  ∃ e, remove_input op var h = (Raise e, h) ∧
       (e = UnboundLocalError ∨ e = KeyError NotInputOf).
Proof.
  intros Hs. unfold remove_input. unfold_M.
  fold (get_input_name op var). rewrite get_input_name_run.
  rewrite find_name_absent by done.
  destruct (inputs O); eauto.
Qed.

Lemma remove_input_run var V s :
  first_slot (inputs O) var = Some s →
  variables h !! var = Some V →
  remove_input op var h =
    if decide (op ∈ input_to V)
    then (Return tt,
          mkHeap (<[op := set_inputs (dict_del s (inputs O)) O]> (operators h))
                 (<[var := set_input_to (input_to V ∖ {[op]}) V]> (variables h)))
    else (Raise (KeyError MissingElement),
          mkHeap (<[op := set_inputs (dict_del s (inputs O)) O]> (operators h))
                 (variables h)).
Proof.
  intros Hs Hv. unfold remove_input. unfold_M.
  fold (get_input_name op var). rewrite get_input_name_run.
  rewrite (find_name_first_slot _ _ _ _ _ Hs). rewrite Hop.
  destruct (dict_pop_elem s var (inputs O)) as [v' ->];
    [by apply first_slot_elem|].
  cbn [operators variables]. rewrite Hv.
  by destruct (decide (op ∈ input_to V)).
Qed.

Lemma append_output_run s var V :
  variables h !! var = Some V →
  append_output op s var h =
    match output_from V with
    | Some _ => (Raise (KeyError AlreadyRegistered), h)
    | None =>
        (Return tt,
         mkHeap (<[op := set_outputs (dict_set s var (outputs O)) O]> (operators h))
                (<[var := set_output_from (Some op) V]> (variables h)))
    end.
Proof.
  intros Hv. unfold append_output. unfold_M. rewrite Hv.
  destruct (output_from V); [done|]. by rewrite Hop, Hv.
Qed.

Lemma remove_output_absent var :
  first_slot (outputs O) var = None →
  ∃ e, remove_output op var h = (Raise e, h) ∧
       (e = UnboundLocalError ∨ e = KeyError NotOutputOf).
Proof.
  intros Hs. unfold remove_output. unfold_M.
  fold (get_output_name op var). rewrite get_output_name_run.
  rewrite find_name_absent by done.
  destruct (outputs O); eauto.
Qed.

Lemma remove_output_run var V s :
  dict_wf (outputs O) →
  first_slot (outputs O) var = Some s →
  variables h !! var = Some V →
  remove_output op var h =
    (Return tt,
     mkHeap (<[op := set_outputs (dict_del s (outputs O)) O]> (operators h))
            (<[var := set_output_from None V]> (variables h))).
Proof.
  intros Hwf Hs Hv. unfold remove_output. unfold_M.
  fold (get_output_name op var). rewrite get_output_name_run.
  rewrite (find_name_first_slot _ _ _ _ _ Hs). rewrite Hop.
  unfold dict_pop. rewrite (first_slot_get _ _ _ Hwf Hs).
  cbn [operators variables]. by rewrite Hv.
Qed.
End Run.

Lemma replace_input_unfold h op O v_old v_new :
  operators h !! op = Some O →
  replace_input op v_old v_new h =
    match find_name (inputs O) v_old None NotInputOf with
    | Return s =>
        match remove_input op v_old h with
        | (Return _, h1) => append_input op s v_new h1
        | (Raise e, h1) => (Raise e, h1)
        | (Stuck, h1) => (Stuck, h1)
        end
    | Raise e => (Raise e, h)
    | Stuck => (Stuck, h)
    end.
Proof.
  intros Hop. unfold replace_input. unfold mbind at 1. unfold M_bind at 1.
  rewrite (get_input_name_run h op O Hop).
  destruct (find_name _ _ _ _); [|done..].
  unfold mbind, M_bind. by destruct (remove_input op v_old h) as [[]].
Qed.

Lemma replace_output_unfold h op O v_old v_new :
  operators h !! op = Some O →
  replace_output op v_old v_new h =
    match find_name (outputs O) v_old None NotOutputOf with
    | Return s =>
        match remove_output op v_old h with
        | (Return _, h1) => append_output op s v_new h1
        | (Raise e, h1) => (Raise e, h1)
        | (Stuck, h1) => (Stuck, h1)
        end
    | Raise e => (Raise e, h)
    | Stuck => (Stuck, h)
    end.
Proof.
  intros Hop. unfold replace_output. unfold mbind at 1. unfold M_bind at 1.
  rewrite (get_output_name_run h op O Hop).
  destruct (find_name _ _ _ _); [|done..].
  unfold mbind, M_bind. by destruct (remove_output op v_old h) as [[]].
Qed.

(** ** append_output *)

(** C1, as the code has it.  [op.append_output(s, var)] raises the conflict
    error if and only if [var.output_from] is not [None], whichever Operator
    it names, [op] itself included, and then leaves the heap as it was; with
    [var.output_from] equal to [None] the call returns. *)
Theorem append_output_raises_iff_has_producer h op s var O V :
  operators h !! op = Some O →
  variables h !! var = Some V →
  ((append_output op s var h).1 = Raise (KeyError AlreadyRegistered)
     ↔ is_Some (output_from V)) ∧
  (is_Some (output_from V) →
     append_output op s var h = (Raise (KeyError AlreadyRegistered), h)) ∧
  (output_from V = None → (append_output op s var h).1 = Return tt).
Proof.
  intros Hop Hv. rewrite (append_output_run h op O Hop s var V Hv).
  destruct (output_from V) as [p|]; simpl.
  - split_and!; [|done|done]. split; [by eexists|done].
  - split_and!; [|by intros []|done]. split; [done|by intros []].
Qed.

Lemma append_output_raises_iff_has_producer_witness :
  ((append_output conv2 "y" v conv_y_v).1 = Raise (KeyError AlreadyRegistered)
     ↔ is_Some (Some conv)) ∧
  (is_Some (Some conv) →
     append_output conv2 "y" v conv_y_v
       = (Raise (KeyError AlreadyRegistered), conv_y_v)) ∧
  (Some conv = None → (append_output conv2 "y" v conv_y_v).1 = Return tt).
Proof.
  apply (append_output_raises_iff_has_producer conv_y_v conv2 "y" v
           (Operator_init "conv2" None)
           (mkVariable (mkNode [NCHW] (Some [])) [1; 3; 8; 8] ∅ (Some conv) NCHW));
    vm_compute; reflexivity.
Defined.

(** C1 as stated fails: [v.output_from] is [conv] itself, not a different
    Operator, and [conv.append_output("y", v)] raises the conflict error. *)
Lemma append_output_by_own_producer_raises :
  ¬ ((append_output conv "y" v conv_y_v).1 = Raise (KeyError AlreadyRegistered)
     ↔ ∃ V p, variables conv_y_v !! v = Some V ∧
              output_from V = Some p ∧ p ≠ conv).
Proof.
  intros [Hraise _].
  destruct Hraise as (V & p & HV & Hp & Hne); [by vm_compute|].
  vm_compute in HV. injection HV as <-. simpl in Hp. by injection Hp as <-.
Qed.

Lemma append_output_Return_inv h op s var h' :
  append_output op s var h = (Return tt, h') →
  ∃ O V, operators h !! op = Some O ∧ variables h !! var = Some V ∧
         output_from V = None.
Proof.
  unfold append_output. unfold_M.
  destruct (variables h !! var) as [V|] eqn:Hv; [|done].
  destruct (output_from V) eqn:Hp; [done|].
  destruct (operators h !! op) as [O|] eqn:Hop; [|done].
  intros _. by exists O, V.
Qed.

(** C5.  After a successful [op.append_output(s, var)], slot [s] of
    [op.outputs] is [var] and [var.output_from] is [op]; an [append_output]
    of [var] by a different Operator then raises the conflict error and
    leaves the whole heap, the first linkage included, as it was. *)
Theorem append_output_links_then_conflicts h op s var h' :
  append_output op s var h = (Return tt, h') →
  (∃ O' V', operators h' !! op = Some O' ∧ dict_get s (outputs O') = Some var ∧
            variables h' !! var = Some V' ∧ output_from V' = Some op) ∧
  (∀ op2 s2, op2 ≠ op →
     append_output op2 s2 var h' = (Raise (KeyError AlreadyRegistered), h')).
Proof.
  intros Hrun.
  destruct (append_output_Return_inv _ _ _ _ _ Hrun) as (O & V & Hop & Hv & Hp).
  rewrite (append_output_run h op O Hop s var V Hv), Hp in Hrun.
  injection Hrun as <-. split.
  - eexists _, _. cbn [operators variables].
    rewrite !lookup_insert_eq. split_and!; [done| |done|done].
    apply dict_get_set_eq.
  - intros op2 s2 _. unfold append_output. unfold_M.
    by rewrite lookup_insert_eq.
Qed.

Lemma append_output_links_then_conflicts_witness :
  (∃ O' V', operators conv_y_v !! conv = Some O' ∧
            dict_get "y" (outputs O') = Some v ∧
            variables conv_y_v !! v = Some V' ∧ output_from V' = Some conv) ∧
  (∀ op2 s2, op2 ≠ conv →
     append_output op2 s2 v conv_y_v
       = (Raise (KeyError AlreadyRegistered), conv_y_v)).
Proof.
  apply (append_output_links_then_conflicts unlinked conv "y" v conv_y_v).
  vm_compute. reflexivity.
Defined.

(** ** append_input *)

(** C6.  [op.append_input(s, var)] returns, sets slot [s] of [op.inputs] to
    [var] and adds [op] to [var.input_to]; no other Variable is touched, so
    a Variable [w] that held slot [s] before keeps its [input_to], [op]
    included. *)
Theorem append_input_links_and_frames h op s var O V :
  operators h !! op = Some O →
  variables h !! var = Some V →
  ∃ h' O' V',
    append_input op s var h = (Return tt, h') ∧
    operators h' !! op = Some O' ∧ dict_get s (inputs O') = Some var ∧
    variables h' !! var = Some V' ∧ input_to V' = {[op]} ∪ input_to V ∧
    op ∈ input_to V' ∧
    (∀ w, w ≠ var → variables h' !! w = variables h !! w).
Proof.
  intros Hop Hv. rewrite (append_input_run h op O Hop s var V Hv).
  eexists _, _, _. split; [done|]. cbn [operators variables].
  rewrite !lookup_insert_eq. split_and!; try done.
  - apply dict_get_set_eq.
  - simpl. set_solver.
  - intros w' Hne. by rewrite lookup_insert_ne.
Qed.

Lemma append_input_links_and_frames_witness :
  ∃ h' O' V',
    append_input conv "x" w conv_x_v = (Return tt, h') ∧
    operators h' !! conv = Some O' ∧ dict_get "x" (inputs O') = Some w ∧
    variables h' !! w = Some V' ∧ input_to V' = {[conv]} ∪ ∅ ∧
    conv ∈ input_to V' ∧
    (∀ w', w' ≠ w → variables h' !! w' = variables conv_x_v !! w').
Proof.
  apply (append_input_links_and_frames conv_x_v conv "x" w
           (mkOperator (mkNode [] None) "conv" [("x", v)] [])
           (mkVariable (mkNode [NCHW] (Some [])) [1; 3; 8; 8] ∅ None NCHW));
    vm_compute; reflexivity.
Defined.

(** ** replace_input *)

(** C7, as the code has it.  When [old] is an input of [op], [s] is the
    first slot of [op.inputs] (in insertion order) that holds [old], and
    [op] is in [old.input_to], then [op.replace_input(old, new)] returns,
    slot [s] holds [new], [op] is in [new.input_to], and, when [new] is
    not [old] itself, [op] is no longer in [old.input_to]. *)
Theorem replace_input_keeps_slot h op old new O Vold Vnew s :
  operators h !! op = Some O →
  variables h !! old = Some Vold →
  variables h !! new = Some Vnew →
  first_slot (inputs O) old = Some s →
  op ∈ input_to Vold →
  ∃ h' O' V',
    replace_input op old new h = (Return tt, h') ∧
    operators h' !! op = Some O' ∧ dict_get s (inputs O') = Some new ∧
    variables h' !! new = Some V' ∧ op ∈ input_to V' ∧
    (new ≠ old → ∃ Vold', variables h' !! old = Some Vold' ∧
                          op ∉ input_to Vold').
Proof.
  intros Hop Hold Hnew Hs Hin.
  rewrite (replace_input_unfold h op O old new Hop).
  rewrite (find_name_first_slot _ _ _ _ _ Hs).
  rewrite (remove_input_run h op O Hop old Vold s Hs Hold).
  rewrite decide_True by done.
  set (h1 := mkHeap _ _).
  assert (Hop1 : operators h1 !! op
                 = Some (set_inputs (dict_del s (inputs O)) O))
    by apply lookup_insert_eq.
  assert (∃ V1, variables h1 !! new = Some V1) as [V1 Hnew1].
  { subst h1. cbn [variables]. destruct (decide (new = old)) as [->|Hne].
    - rewrite lookup_insert_eq. by eexists.
    - rewrite lookup_insert_ne by done. by eexists. }
  rewrite (append_input_run h1 op _ Hop1 s new V1 Hnew1).
  eexists _, _, _. split; [done|]. cbn [operators variables].
  rewrite !lookup_insert_eq. split_and!; try done.
  - apply dict_get_set_eq.
  - simpl. set_solver.
  - intros Hne. rewrite lookup_insert_ne by done.
    subst h1. cbn [variables]. rewrite lookup_insert_eq.
    eexists. split; [done|]. simpl.
    rewrite elem_of_difference, elem_of_singleton. intros [_ Hn]. by apply Hn.
Qed.

Lemma replace_input_keeps_slot_witness :
  ∃ h' O' V',
    replace_input conv v w conv_x_v = (Return tt, h') ∧
    operators h' !! conv = Some O' ∧ dict_get "x" (inputs O') = Some w ∧
    variables h' !! w = Some V' ∧ conv ∈ input_to V' ∧
    (w ≠ v → ∃ Vold', variables h' !! v = Some Vold' ∧
                      conv ∉ input_to Vold').
Proof.
  apply (replace_input_keeps_slot conv_x_v conv v w
           (mkOperator (mkNode [] None) "conv" [("x", v)] [])
           (mkVariable (mkNode [NCHW] (Some [])) [1; 3; 8; 8] {[conv]} None NCHW)
           (mkVariable (mkNode [NCHW] (Some [])) [1; 3; 8; 8] ∅ None NCHW));
    [vm_compute; reflexivity..|].
  simpl. apply elem_of_singleton_2. reflexivity.
Defined.

(** C7 as stated fails: [v] is the input of [conv] under slot "x",
    [conv.replace_input(v, v)] returns, and [conv] is still in
    [v.input_to]. *)
Lemma replace_input_by_itself_keeps_back_link :
  ∃ O h' V',
    operators conv_x_v !! conv = Some O ∧ dict_get "x" (inputs O) = Some v ∧
    replace_input conv v v conv_x_v = (Return tt, h') ∧
    variables h' !! v = Some V' ∧ conv ∈ input_to V'.
Proof.
  eexists _, _, _. split_and!; [vm_compute; reflexivity..|].
  simpl. set_solver.
Qed.

(** ** replace_output *)

(** C2, as the code has it.  A failed [op.replace_output(old, new)] is one
    of two: the reverse lookup of [old] failed and the heap is as it was; or
    [new] (a Variable other than [old]) has a producer and the conflict
    error is raised after [old] was removed: [new] is as it was, but the
    slot of [old] is gone from [op.outputs] and [old.output_from] is
    [None]. *)
Theorem replace_output_failure h op old new O Vold Vnew e h' :
  operators h !! op = Some O →
  dict_wf (outputs O) →
  variables h !! old = Some Vold →
  variables h !! new = Some Vnew →
  replace_output op old new h = (Raise e, h') →
  (first_slot (outputs O) old = None ∧
   (e = UnboundLocalError ∨ e = KeyError NotOutputOf) ∧ h' = h)
  ∨
  (∃ s, first_slot (outputs O) old = Some s ∧
        e = KeyError AlreadyRegistered ∧
        new ≠ old ∧ is_Some (output_from Vnew) ∧
        variables h' !! new = Some Vnew ∧
        h' = mkHeap (<[op := set_outputs (dict_del s (outputs O)) O]> (operators h))
                    (<[old := set_output_from None Vold]> (variables h))).
Proof.
  intros Hop Hwf Hold Hnew.
  rewrite (replace_output_unfold h op O old new Hop).
  destruct (first_slot (outputs O) old) as [s|] eqn:Hs.
  - rewrite (find_name_first_slot _ _ _ _ _ Hs).
    rewrite (remove_output_run h op O Hop old Vold s Hwf Hs Hold).
    set (h1 := mkHeap _ _).
    assert (Hop1 : operators h1 !! op
                   = Some (set_outputs (dict_del s (outputs O)) O))
      by apply lookup_insert_eq.
    destruct (decide (new = old)) as [->|Hne].
    + assert (Hv1 : variables h1 !! old = Some (set_output_from None Vold))
        by apply lookup_insert_eq.
      by rewrite (append_output_run h1 op _ Hop1 s old _ Hv1).
    + assert (Hv1 : variables h1 !! new = Some Vnew).
      { subst h1. cbn [variables]. by rewrite lookup_insert_ne. }
      rewrite (append_output_run h1 op _ Hop1 s new _ Hv1).
      destruct (output_from Vnew) as [p|] eqn:Hp; [|done].
      intros [= <- <-]. right. exists s. by split_and!.
  - rewrite find_name_absent by done. left.
    destruct (outputs O); simplify_eq; auto.
Qed.

Lemma replace_output_failure_witness :
  ∃ e h',
    (first_slot [("y", v)] v = None ∧
     (e = UnboundLocalError ∨ e = KeyError NotOutputOf) ∧ h' = two_producers)
    ∨
    (∃ s, first_slot [("y", v)] v = Some s ∧
          e = KeyError AlreadyRegistered ∧
          w ≠ v ∧ is_Some (Some conv2) ∧
          variables h' !! w
            = Some (mkVariable (mkNode [NCHW] (Some [])) [1; 3; 8; 8] ∅
                               (Some conv2) NCHW) ∧
          h' = mkHeap
                 (<[conv := set_outputs (dict_del s [("y", v)])
                              (mkOperator (mkNode [] None) "conv" [] [("y", v)])]>
                    (operators two_producers))
                 (<[v := set_output_from None
                           (mkVariable (mkNode [NCHW] (Some [])) [1; 3; 8; 8] ∅
                                       (Some conv) NCHW)]>
                    (variables two_producers))).
Proof.
  eexists _, _.
  apply (replace_output_failure two_producers conv v w
           (mkOperator (mkNode [] None) "conv" [] [("y", v)])
           (mkVariable (mkNode [NCHW] (Some [])) [1; 3; 8; 8] ∅ (Some conv) NCHW)
           (mkVariable (mkNode [NCHW] (Some [])) [1; 3; 8; 8] ∅ (Some conv2) NCHW)).
  - vm_compute; reflexivity.
  - apply NoDup_singleton.
  - vm_compute; reflexivity.
  - vm_compute; reflexivity.
  - vm_compute; reflexivity.
Defined.

(** C2 as stated fails: [w] has producer [conv2], so
    [conv.replace_output(v, w)] raises the conflict error; the slot "y" of
    [conv.outputs] is gone and [v.output_from] is [None], while before the
    call they were [v] and [conv]. *)
Lemma replace_output_conflict_is_partial :
  ∃ h',
    replace_output conv v w two_producers
      = (Raise (KeyError AlreadyRegistered), h') ∧
    outputs <$> operators two_producers !! conv = Some [("y", v)] ∧
    outputs <$> operators h' !! conv = Some [] ∧
    output_from <$> variables two_producers !! v = Some (Some conv) ∧
    output_from <$> variables h' !! v = Some None.
Proof. eexists. split_and!; vm_compute; reflexivity. Qed.

(** ** The lookup error *)

(** What holds of C3: on an Operator whose map has at least one item, the
    reverse lookup of a Variable that is not in the map raises the lookup
    error, in the lookup itself and in its callers, and the heap is as it
    was. *)
Lemma lookup_error_on_nonempty_inputs h op O var new :
  operators h !! op = Some O →
  inputs O ≠ [] →
  first_slot (inputs O) var = None →
  get_input_name op var h = (Raise (KeyError NotInputOf), h) ∧
  remove_input op var h = (Raise (KeyError NotInputOf), h) ∧
  replace_input op var new h = (Raise (KeyError NotInputOf), h).
Proof.
  intros Hop Hne Hs.
  assert (Hf : find_name (inputs O) var None NotInputOf
               = Raise (KeyError NotInputOf)).
  { rewrite find_name_absent by done. by destruct (inputs O). }
  split_and!.
  - by rewrite (get_input_name_run h op O Hop), Hf.
  - unfold remove_input. unfold mbind, M_bind.
    by rewrite (get_input_name_run h op O Hop), Hf.
  - by rewrite (replace_input_unfold h op O var new Hop), Hf.
Qed.

Lemma lookup_error_on_nonempty_outputs h op O var new :
  operators h !! op = Some O →
  outputs O ≠ [] →
  first_slot (outputs O) var = None →
  get_output_name op var h = (Raise (KeyError NotOutputOf), h) ∧
  remove_output op var h = (Raise (KeyError NotOutputOf), h) ∧
  replace_output op var new h = (Raise (KeyError NotOutputOf), h).
Proof.
  intros Hop Hne Hs.
  assert (Hf : find_name (outputs O) var None NotOutputOf
               = Raise (KeyError NotOutputOf)).
  { rewrite find_name_absent by done. by destruct (outputs O). }
  split_and!.
  - by rewrite (get_output_name_run h op O Hop), Hf.
  - unfold remove_output. unfold mbind, M_bind.
    by rewrite (get_output_name_run h op O Hop), Hf.
  - by rewrite (replace_output_unfold h op O var new Hop), Hf.
Qed.

(** C3 fails on an Operator with no input and no output: [conv] is newly
    constructed, [v] is registered in no role, and each of the six calls
    raises [UnboundLocalError], not the lookup error.  The loop variable
    [name], which the message of the [KeyError] reads, was never bound. *)
Theorem reverse_lookup_on_empty_maps_is_unbound_local :
  get_input_name conv v unlinked = (Raise UnboundLocalError, unlinked) ∧
  get_output_name conv v unlinked = (Raise UnboundLocalError, unlinked) ∧
  remove_input conv v unlinked = (Raise UnboundLocalError, unlinked) ∧
  remove_output conv v unlinked = (Raise UnboundLocalError, unlinked) ∧
  replace_input conv v w unlinked = (Raise UnboundLocalError, unlinked) ∧
  replace_output conv v w unlinked = (Raise UnboundLocalError, unlinked).
Proof. split_and!; vm_compute; reflexivity. Qed.

(** ** Bidirectional consistency of inputs *)

Lemma same_inputs_refl h : same_inputs h h.
Proof. by split. Qed.

Lemma same_inputs_trans h1 h2 h3 :
  same_inputs h1 h2 → same_inputs h2 h3 → same_inputs h1 h3.
Proof.
  intros [Ho Hv] [Ho' Hv']. split; intros x.
  - by rewrite Ho', Ho.
  - by rewrite Hv', Hv.
Qed.

Lemma same_inputs_consistent h h' :
  same_inputs h h' → inputs_consistent h → inputs_consistent h'.
Proof.
  intros [Ho Hv] Hinv op O' s var Hop Hin.
  specialize (Ho op). rewrite Hop in Ho. simpl in Ho.
  destruct (operators h !! op) as [O|] eqn:HO; [|done].
  injection Ho as Ho. rewrite Ho in Hin.
  destruct (Hinv op O s var HO Hin) as (V & HV & Hmem).
  specialize (Hv var). rewrite HV in Hv. simpl in Hv.
  destruct (variables h' !! var) as [V'|]; [|done].
  injection Hv as Hv. exists V'. by rewrite Hv.
Qed.

Lemma write_outputs_same_inputs h op O d :
  operators h !! op = Some O →
  same_inputs h (mkHeap (<[op := set_outputs d O]> (operators h)) (variables h)).
Proof.
  intros Hop. split; [|done]. intros op'. cbn [operators].
  destruct (decide (op' = op)) as [->|Hne].
  - by rewrite lookup_insert_eq, Hop.
  - by rewrite lookup_insert_ne.
Qed.

Lemma write_output_from_same_inputs h var V p :
  variables h !! var = Some V →
  same_inputs h (mkHeap (operators h) (<[var := set_output_from p V]> (variables h))).
Proof.
  intros Hv. split; [done|]. intros var'. cbn [variables].
  destruct (decide (var' = var)) as [->|Hne].
  - by rewrite lookup_insert_eq, Hv.
  - by rewrite lookup_insert_ne.
Qed.

Lemma append_output_same_inputs op s var h :
  same_inputs h (append_output op s var h).2.
Proof.
  unfold append_output. unfold_M.
  destruct (variables h !! var) as [V|] eqn:Hv; [|apply same_inputs_refl].
  destruct (output_from V); [apply same_inputs_refl|].
  destruct (operators h !! op) as [O|] eqn:Hop; [|apply same_inputs_refl].
  cbn [operators variables]. rewrite Hv. cbn [snd].
  eapply same_inputs_trans; [by apply write_outputs_same_inputs|].
  by apply (write_output_from_same_inputs (mkHeap _ _)).
Qed.

Lemma remove_output_same_inputs op var h :
  same_inputs h (remove_output op var h).2.
Proof.
  unfold remove_output. unfold mbind, M_bind.
  unfold get_output_name at 1. unfold_M.
  destruct (operators h !! op) as [O|] eqn:Hop; [|apply same_inputs_refl].
  destruct (find_name _ _ _ _) as [s| |]; [|apply same_inputs_refl..].
  rewrite Hop.
  destruct (dict_pop s (outputs O)) as [[var' d]|]; [|apply same_inputs_refl].
  cbn [operators variables].
  destruct (variables h !! var') as [V|] eqn:Hv; cbn [snd].
  - eapply same_inputs_trans; [by apply write_outputs_same_inputs|].
    by apply (write_output_from_same_inputs (mkHeap _ _)).
  - by apply write_outputs_same_inputs.
Qed.

Lemma replace_output_same_inputs op v_old v_new h :
  same_inputs h (replace_output op v_old v_new h).2.
Proof.
  unfold replace_output. unfold mbind at 1. unfold M_bind at 1.
  pose proof (get_output_name_run h op) as Hrun.
  unfold get_output_name in *. unfold mbind at 1. unfold M_bind at 1.
  unfold read_op at 1.
  destruct (operators h !! op) as [O|] eqn:Hop; [|apply same_inputs_refl].
  unfold lift at 1.
  destruct (find_name _ _ _ _) as [s| |]; [|apply same_inputs_refl..].
  unfold mbind, M_bind.
  pose proof (remove_output_same_inputs op v_old h) as H1.
  destruct (remove_output op v_old h) as [[[]| |] h1]; [|done..].
  eapply same_inputs_trans; [exact H1|]. apply append_output_same_inputs.
Qed.

(** An update of [op] and of [var] that adds no slot but slots holding
    [var], and that only grows [var.input_to], [op] included. *)
Lemma inputs_consistent_update h op O O1 var V V1 :
  inputs_consistent h →
  operators h !! op = Some O →
  variables h !! var = Some V →
  (∀ s' v', (s', v') ∈ inputs O1 → (s', v') ∈ inputs O ∨ v' = var) →
  input_to V ⊆ input_to V1 →
  op ∈ input_to V1 →
  inputs_consistent
    (mkHeap (<[op := O1]> (operators h)) (<[var := V1]> (variables h))).
Proof.
  intros Hinv Hop Hv Hsub Hgrow Hmem op' O' s' v' Hop' Hin.
  cbn [operators variables] in *.
  assert (Hold : ∀ o, (∃ V', variables h !! v' = Some V' ∧ o ∈ input_to V') →
            ∃ V', <[var := V1]> (variables h) !! v' = Some V' ∧ o ∈ input_to V').
  { intros o (V' & HV' & Ho). destruct (decide (v' = var)) as [->|Hne].
    - rewrite lookup_insert_eq. exists V1. split; [done|].
      rewrite Hv in HV'. injection HV' as <-. by apply Hgrow.
    - rewrite lookup_insert_ne by done. by exists V'. }
  destruct (decide (op' = op)) as [->|Hne].
  - rewrite lookup_insert_eq in Hop'. injection Hop' as <-.
    destruct (Hsub _ _ Hin) as [Hin'| ->].
    + apply Hold. by eapply Hinv.
    + rewrite lookup_insert_eq. by exists V1.
  - rewrite lookup_insert_ne in Hop' by done.
    apply Hold. by eapply Hinv.
Qed.

Lemma append_input_consistent h op s var :
  inputs_consistent h →
  is_Some (operators h !! op) →
  is_Some (variables h !! var) →
  inputs_consistent (append_input op s var h).2.
Proof.
  intros Hinv [O Hop] [V Hv].
  rewrite (append_input_run h op O Hop s var V Hv). cbn [snd].
  eapply inputs_consistent_update; try done.
  - intros s' v' Hin. simpl in Hin.
    apply dict_set_elem in Hin as [[= -> ->]|Hin]; auto.
  - simpl. apply union_subseteq_r.
  - simpl. apply elem_of_union_l. by apply elem_of_singleton.
Qed.

(** Where [var] holds at most one slot, no slot holds it once its first
    slot is deleted. *)
Lemma dict_del_first_slot items var s s' v' :
  dict_wf items →
  first_slot items var = Some s →
  (length (slots_holding items var) ≤ 1)%nat →
  (s', v') ∈ dict_del s items → v' ≠ var.
Proof.
  unfold dict_wf, slots_holding, first_slot.
  induction items as [|[k0 v0] items IH]; simpl; [done|].
  rewrite NoDup_cons. intros [Hk0 Hnd].
  destruct (decide (v0 = var)) as [->|Hne]; simpl.
  - intros [= ->]. rewrite decide_True by done.
    rewrite filter_cons_True by done. simpl. intros Hlen Hin ->.
    assert (Hf : (s', var) ∈ filter (λ kv : string * vref, kv.2 = var) items)
      by (by apply list_elem_of_filter).
    destruct (filter _ items); [by apply elem_of_nil in Hf|simpl in Hlen; lia].
  - rewrite filter_cons_False by done.
    destruct (list_find _ items) as [[i [n' v1]]|] eqn:Hf; simpl; [|done].
    intros [= <-] Hlen.
    assert (Hfs : first_slot items var = Some n')
      by (unfold first_slot; by rewrite Hf).
    destruct (decide (k0 = n')) as [->|Hk].
    + exfalso. apply Hk0. apply first_slot_elem in Hfs.
      apply list_elem_of_fmap. by exists (n', var).
    + rewrite elem_of_cons. intros [[= -> ->]|Hin]; [done|].
      by apply IH.
Qed.

Lemma remove_input_consistent h op O var :
  inputs_consistent h →
  operators h !! op = Some O →
  dict_wf (inputs O) →
  (length (slots_holding (inputs O) var) ≤ 1)%nat →
  inputs_consistent (remove_input op var h).2.
Proof.
  intros Hinv Hop Hwf Hlen.
  destruct (first_slot (inputs O) var) as [s|] eqn:Hs.
  - destruct (Hinv op O s var Hop (first_slot_elem _ _ _ Hs)) as (V & Hv & Hmem).
    rewrite (remove_input_run h op O Hop var V s Hs Hv).
    rewrite decide_True by done. cbn [snd].
    intros op' O' s' v' Hop' Hin. cbn [operators variables] in *.
    destruct (decide (op' = op)) as [->|Hne].
    + rewrite lookup_insert_eq in Hop'. injection Hop' as <-. simpl in Hin.
      pose proof (dict_del_first_slot _ _ _ _ _ Hwf Hs Hlen Hin) as Hv'.
      rewrite lookup_insert_ne by done.
      eapply Hinv; [exact Hop|]. by eapply dict_del_elem.
    + rewrite lookup_insert_ne in Hop' by done.
      destruct (Hinv op' O' s' v' Hop' Hin) as (V' & HV' & Hmem').
      destruct (decide (v' = var)) as [->|Hnv].
      * rewrite lookup_insert_eq. eexists. split; [done|]. simpl.
        rewrite Hv in HV'. injection HV' as <-.
        apply elem_of_difference. split; [done|].
        by rewrite elem_of_singleton.
      * rewrite lookup_insert_ne by done. by exists V'.
  - by destruct (remove_input_absent h op O Hop var Hs) as (e & -> & _).
Qed.

Lemma replace_input_consistent h op O old new :
  inputs_consistent h →
  operators h !! op = Some O →
  dict_wf (inputs O) →
  is_Some (variables h !! new) →
  (length (slots_holding (inputs O) old) ≤ 1)%nat ∨ new = old →
  inputs_consistent (replace_input op old new h).2.
Proof.
  intros Hinv Hop Hwf [Vnew Hnew] Hcase.
  rewrite (replace_input_unfold h op O old new Hop).
  destruct (first_slot (inputs O) old) as [s|] eqn:Hs.
  2:{ rewrite find_name_absent by done. by destruct (inputs O). }
  rewrite (find_name_first_slot _ _ _ _ _ Hs).
  destruct (Hinv op O s old Hop (first_slot_elem _ _ _ Hs)) as (V & Hv & Hmem).
  destruct Hcase as [Hlen| ->].
  - pose proof (remove_input_consistent h op O old Hinv Hop Hwf Hlen) as H1.
    rewrite (remove_input_run h op O Hop old V s Hs Hv) in *.
    rewrite decide_True in * by done. cbn [snd] in H1.
    apply append_input_consistent; [done|..]; cbn [operators variables].
    + rewrite lookup_insert_eq. by eexists.
    + destruct (decide (new = old)) as [->|Hne].
      * rewrite lookup_insert_eq. by eexists.
      * rewrite lookup_insert_ne by done. by eexists.
  - rewrite (remove_input_run h op O Hop old V s Hs Hv).
    rewrite decide_True by done.
    erewrite append_input_run; [|apply lookup_insert_eq..].
    cbn [snd operators variables]. rewrite !insert_insert_eq.
    eapply inputs_consistent_update; try done.
    + intros s' v' Hin. simpl in Hin.
      apply dict_set_elem in Hin as [[= -> ->]|Hin]; [by right|].
      left. by eapply dict_del_elem.
    + simpl. intros x Hx. destruct (decide (x = op)) as [->|Hne].
      * apply elem_of_union_l. by apply elem_of_singleton.
      * apply elem_of_union_r. apply elem_of_difference. split; [done|].
        by rewrite elem_of_singleton.
    + simpl. apply elem_of_union_l. by apply elem_of_singleton.
Qed.

Lemma conv_ab_v_consistent : inputs_consistent conv_ab_v.
Proof.
  intros op O s var Hop Hin.
  assert (Hops : operators conv_ab_v
                 = <[conv := mkOperator (mkNode [] None) "conv"
                               [("a", v); ("b", v)] []]>
                     (<[conv2 := Operator_init "conv2" None]> ∅))
    by (vm_compute; reflexivity).
  rewrite Hops in Hop.
  apply lookup_insert_Some in Hop as [[<- <-]|[_ Hop]].
  - assert (var = v) as ->.
    { simpl in Hin. rewrite !elem_of_cons in Hin.
      destruct Hin as [[= _ ->]|[[= _ ->]|Hin]]; [done..|].
      by apply elem_of_nil in Hin. }
    eexists. split; vm_compute; reflexivity.
  - apply lookup_insert_Some in Hop as [[<- <-]|[_ Hop]].
    + simpl in Hin. by apply elem_of_nil in Hin.
    + by rewrite lookup_empty in Hop.
Qed.

(** C4, as the code has it.  Every operation of the link protocol leaves
    the inputs consistent, whether it returns or raises, except that
    [remove_input(var)] and [replace_input(old, new)] are covered only where
    the Variable removed holds at most one input slot of the Operator (or,
    for [replace_input], where [new] is [old] itself). *)
Theorem link_protocol_keeps_inputs_consistent h op O :
  inputs_consistent h →
  operators h !! op = Some O →
  dict_wf (inputs O) →
  (∀ s var, is_Some (variables h !! var) →
     inputs_consistent (append_input op s var h).2) ∧
  (∀ var, (length (slots_holding (inputs O) var) ≤ 1)%nat →
     inputs_consistent (remove_input op var h).2) ∧
  (∀ old new, is_Some (variables h !! new) →
     (length (slots_holding (inputs O) old) ≤ 1)%nat ∨ new = old →
     inputs_consistent (replace_input op old new h).2) ∧
  (∀ s var, inputs_consistent (append_output op s var h).2) ∧
  (∀ var, inputs_consistent (remove_output op var h).2) ∧
  (∀ old new, inputs_consistent (replace_output op old new h).2).
Proof.
  intros Hinv Hop Hwf. split_and!.
  - intros s var Hv. by apply append_input_consistent.
  - intros var Hlen. by eapply remove_input_consistent.
  - intros old new Hnew Hcase. by eapply replace_input_consistent.
  - intros s var. eapply same_inputs_consistent; [|done].
    apply append_output_same_inputs.
  - intros var. eapply same_inputs_consistent; [|done].
    apply remove_output_same_inputs.
  - intros old new. eapply same_inputs_consistent; [|done].
    apply replace_output_same_inputs.
Qed.

Lemma link_protocol_keeps_inputs_consistent_witness :
  (∀ s var, is_Some (variables conv_ab_v !! var) →
     inputs_consistent (append_input conv s var conv_ab_v).2) ∧
  (∀ var, (length (slots_holding [("a", v); ("b", v)] var) ≤ 1)%nat →
     inputs_consistent (remove_input conv var conv_ab_v).2) ∧
  (∀ old new, is_Some (variables conv_ab_v !! new) →
     (length (slots_holding [("a", v); ("b", v)] old) ≤ 1)%nat ∨ new = old →
     inputs_consistent (replace_input conv old new conv_ab_v).2) ∧
  (∀ s var, inputs_consistent (append_output conv s var conv_ab_v).2) ∧
  (∀ var, inputs_consistent (remove_output conv var conv_ab_v).2) ∧
  (∀ old new, inputs_consistent (replace_output conv old new conv_ab_v).2).
Proof.
  apply (link_protocol_keeps_inputs_consistent conv_ab_v conv
           (mkOperator (mkNode [] None) "conv" [("a", v); ("b", v)] [])).
  - exact conv_ab_v_consistent.
  - vm_compute; reflexivity.
  - unfold dict_wf. simpl. apply (bool_decide_unpack _). vm_compute. exact I.
Defined.

(** C4 as stated fails: [v] holds the input slots "a" and "b" of [conv] and
    the inputs are consistent; after [conv.remove_input(v)], slot "b" still
    holds [v] while [conv] is no longer in [v.input_to]. *)
Lemma remove_input_of_twice_linked_breaks_consistency :
  inputs_consistent conv_ab_v ∧
  ¬ inputs_consistent (remove_input conv v conv_ab_v).2.
Proof.
  split; [exact conv_ab_v_consistent|]. intros Hinv.
  destruct (Hinv conv (mkOperator (mkNode [] None) "conv" [("b", v)] [])
              "b" v) as (V & HV & Hmem).
  - vm_compute; reflexivity.
  - simpl. left.
  - vm_compute in HV. injection HV as <-. vm_compute in Hmem. discriminate.
Qed.

(** ** change_axis_order *)

Lemma check_dropped_ok items order h :
  (∀ axis size, (axis, size) ∈ items → axis ∈ axes order ∨ size = 1) →
  check_dropped items order h = (Return tt, h).
Proof.
  induction items as [|[axis size] items IH]; intros Hall; simpl; [done|].
  unfold mbind, M_bind.
  assert (Hhd : axis ∈ axes order ∨ size = 1) by (apply Hall; left).
  assert (Htl : check_dropped items order h = (Return tt, h)).
  { apply IH. intros a z Hin. apply Hall. by right. }
  destruct (decide (axis ∈ axes order)) as [Hin|Hnin]; [done|].
  destruct Hhd as [?| ->]; [done|]. by rewrite bool_decide_eq_true_2.
Qed.

Lemma check_dropped_fail items order h :
  drops_non_unit items order →
  check_dropped items order h = (Raise AssertionError, h).
Proof.
  intros (axis & size & Hin & Hnin & Hsz).
  induction items as [|[a z] items IH]; [by apply elem_of_nil in Hin|].
  simpl. unfold mbind, M_bind.
  apply elem_of_cons in Hin as [[= <- <-]|Hin].
  - rewrite decide_False by done. by rewrite bool_decide_eq_false_2.
  - destruct (decide (a ∈ axes order)); [by apply IH|].
    unfold assert. destruct (bool_decide (z = 1)); [by apply IH|done].
Qed.

Lemma not_drops_non_unit d order :
  ¬ drops_non_unit d order →
  ∀ axis size, (axis, size) ∈ d → axis ∈ axes order ∨ size = 1.
Proof.
  intros Hno axis size Hin.
  destruct (decide (axis ∈ axes order)) as [?|Hnin]; [by left|].
  destruct (decide (size = 1)) as [?|Hsz]; [by right|].
  exfalso. apply Hno. by exists axis, size.
Qed.

Lemma change_axis_order_run h var order V :
  variables h !! var = Some V →
  (∀ axis size, (axis, size) ∈ shape_dict V → axis ∈ axes order ∨ size = 1) →
  change_axis_order var order h =
    (Return tt,
     mkHeap (operators h)
       (<[var := set_shape_order (reshaped (shape_dict V) order) order V]>
          (variables h))).
Proof.
  intros Hv Hok. unfold change_axis_order. unfold mbind, M_bind, read_var.
  rewrite Hv. rewrite check_dropped_ok by done. by rewrite Hv.
Qed.

(** C8.  [v.change_axis_order(new_order)] raises the assertion error, and
    leaves the heap ([v.shape] and [v.axis_order] included) as it was, if
    some axis of the current mapping is absent from [new_order] and has a
    size other than 1; otherwise it returns, [v.axis_order] is [new_order]
    and [v.shape] lists, for each axis of [new_order] in order, its size in
    the current mapping, 1 when the mapping has no such axis. *)
Theorem change_axis_order_spec h var new_order V :
  variables h !! var = Some V →
  (drops_non_unit (shape_dict V) new_order →
     change_axis_order var new_order h = (Raise AssertionError, h)) ∧
  (¬ drops_non_unit (shape_dict V) new_order →
     ∃ h' V',
       change_axis_order var new_order h = (Return tt, h') ∧
       variables h' !! var = Some V' ∧
       axis_order V' = new_order ∧
       shape V' = reshaped (shape_dict V) new_order ∧
       h' = mkHeap (operators h)
              (<[var := set_shape_order (reshaped (shape_dict V) new_order)
                          new_order V]> (variables h))).
Proof.
  intros Hv. split.
  - intros Hdrop. unfold change_axis_order. unfold mbind, M_bind, read_var.
    rewrite Hv. by rewrite check_dropped_fail.
  - intros Hok.
    rewrite (change_axis_order_run h var new_order V Hv)
      by by apply not_drops_non_unit.
    eexists _, _. split; [done|].
    cbn [variables]. rewrite lookup_insert_eq. by split_and!.
Qed.

Lemma change_axis_order_spec_witness :
  (drops_non_unit [("N", 1); ("C", 3); ("H", 8); ("W", 8)] CHW →
     change_axis_order v CHW unlinked = (Raise AssertionError, unlinked)) ∧
  (¬ drops_non_unit [("N", 1); ("C", 3); ("H", 8); ("W", 8)] CHW →
     ∃ h' V',
       change_axis_order v CHW unlinked = (Return tt, h') ∧
       variables h' !! v = Some V' ∧
       axis_order V' = CHW ∧
       shape V' = [3; 8; 8] ∧
       h' = mkHeap (operators unlinked)
              (<[v := mkVariable (mkNode [NCHW] (Some [])) [3; 8; 8] ∅ None CHW]>
                 (variables unlinked))).
Proof.
  apply (change_axis_order_spec unlinked v CHW
           (mkVariable (mkNode [NCHW] (Some [])) [1; 3; 8; 8] ∅ None NCHW)).
  vm_compute; reflexivity.
Defined.

(** The scenario of the spec: [v] of shape [1,3,8,8] under NCHW is taken
    to CHW, shape [3,8,8], and back to NCHW, shape [1,3,8,8]. *)
Example change_axis_order_NCHW_CHW_NCHW :
  ∃ h1 h2,
    change_axis_order v CHW unlinked = (Return tt, h1) ∧
    shape <$> variables h1 !! v = Some [3; 8; 8] ∧
    change_axis_order v NCHW h1 = (Return tt, h2) ∧
    shape <$> variables h2 !! v = Some [1; 3; 8; 8] ∧
    h2 = unlinked.
Proof. eexists _, _. split_and!; vm_compute; reflexivity. Qed.

(** ** The round trip of change_axis_order *)

Section ShapeDict.
Context {K V : Type} `{EqDecision K}.

(** [dict(pairs)] where each key of [l] is paired with [f] of it. *)
Lemma dict_get_foldl_graph (f : K → V) (l : list K) (acc : dict K V) k :
  dict_get k (foldl (λ d kv, dict_set kv.1 kv.2 d) acc ((λ a, (a, f a)) <$> l))
  = if decide (k ∈ l) then Some (f k) else dict_get k acc.
Proof.
  revert acc. induction l as [|a l IH]; intros acc.
  - done.
  - rewrite fmap_cons. cbn [foldl fst snd].
    rewrite IH. destruct (decide (k ∈ l)) as [Hin|Hnin].
    + rewrite decide_True; [done|]. by right.
    + rewrite dict_get_set. destruct (decide (a = k)) as [->|Hne].
      * rewrite decide_True; [done|]. left.
      * rewrite decide_False; [done|].
        rewrite not_elem_of_cons. split; [congruence|done].
Qed.

Lemma dict_get_of_graph (f : K → V) (l : list K) k :
  dict_get k (dict_of_pairs ((λ a, (a, f a)) <$> l))
  = if decide (k ∈ l) then Some (f k) else None.
Proof. unfold dict_of_pairs. by rewrite dict_get_foldl_graph. Qed.

Lemma zip_graph (f : K → V) (l : list K) :
  zip l (f <$> l) = (λ a, (a, f a)) <$> l.
Proof. induction l as [|a l IH]; simpl; [done|]. f_equal. exact IH. Qed.

Lemma dict_set_fresh k v (d : dict K V) :
  k ∉ d.*1 → dict_set k v d = d ++ [(k, v)].
Proof.
  induction d as [|[k0 v0] d IH]; simpl; [done|].
  rewrite not_elem_of_cons. intros [Hne Hk].
  rewrite decide_False by done. by rewrite IH.
Qed.

(** Pairs with distinct keys are a dict as they are. *)
Lemma dict_of_pairs_NoDup (l : list (K * V)) :
  NoDup l.*1 → dict_of_pairs l = l.
Proof.
  unfold dict_of_pairs.
  assert (Hgen : ∀ acc, NoDup (acc ++ l).*1 →
            foldl (λ d kv, dict_set kv.1 kv.2 d) acc l = acc ++ l).
  { induction l as [|[k v] l IH]; intros acc Hnd; simpl.
    - by rewrite app_nil_r.
    - rewrite dict_set_fresh.
      + rewrite IH; rewrite <- app_assoc; [done|]. exact Hnd.
      + rewrite fmap_app in Hnd. apply NoDup_app in Hnd as (_ & Hdisj & _).
        intros Hin. apply (Hdisj k Hin). simpl. left. }
  intros Hnd. by apply (Hgen []).
Qed.
End ShapeDict.

(** Reading back, axis by axis, the mapping of distinct axes to a shape of
    the same length gives the shape. *)
Lemma reshaped_zip (ks : list Axis) (vs : list Z) :
  NoDup ks → length vs = length ks →
  (λ axis, default 1 (dict_get axis (zip ks vs))) <$> ks = vs.
Proof.
  revert vs. induction ks as [|k ks IH]; intros [|x vs] Hnd Hlen;
    simpl in *; try done.
  apply NoDup_cons in Hnd as [Hk Hnd].
  rewrite decide_True by done. simpl. f_equal.
  transitivity ((λ axis, default 1 (dict_get axis (zip ks vs))) <$> ks);
    [|apply IH; [done|lia]].
  apply list_fmap_ext. intros i a Ha.
  rewrite decide_False; [done|].
  intros ->. apply Hk. by eapply list_elem_of_lookup_2.
Qed.

(** C9.  A Variable under axis order [A] (distinct axes, as many as the
    shape has entries), taken to an axis order [B] that has every axis of
    [A] and back to [A]: both calls return, and the shape and the axis order
    are the original ones; the heap as a whole is the original one. *)
Theorem change_axis_order_round_trip h var A B V :
  variables h !! var = Some V →
  axis_order V = A →
  NoDup (axes A) →
  length (shape V) = length (axes A) →
  axes A ⊆ axes B →
  ∃ h1 V1,
    change_axis_order var B h = (Return tt, h1) ∧
    variables h1 !! var = Some V1 ∧ axis_order V1 = B ∧
    ∃ h2 V2,
      change_axis_order var A h1 = (Return tt, h2) ∧
      variables h2 !! var = Some V2 ∧
      shape V2 = shape V ∧ axis_order V2 = A ∧ h2 = h.
Proof.
  intros Hv HA Hnd Hlen Hsub.
  assert (HD : shape_dict V = zip (axes A) (shape V)).
  { unfold shape_dict, get_shape_dict. rewrite HA.
    apply dict_of_pairs_NoDup. by rewrite fst_zip by lia. }
  assert (Hkeys : (shape_dict V).*1 = axes A)
    by (rewrite HD; apply fst_zip; lia).
  set (f := λ axis : Axis, default 1 (dict_get axis (shape_dict V))).
  rewrite (change_axis_order_run h var B V Hv).
  2:{ intros axis size Hin. left. apply Hsub. rewrite <- Hkeys.
      apply list_elem_of_fmap. by exists (axis, size). }
  set (V1 := set_shape_order _ B V). set (h1 := mkHeap _ _).
  assert (Hv1 : variables h1 !! var = Some V1) by apply lookup_insert_eq.
  exists h1, V1. split_and!; [done..|].
  assert (HD1 : shape_dict V1 = dict_of_pairs ((λ a, (a, f a)) <$> axes B)).
  { unfold shape_dict, get_shape_dict. simpl. unfold reshaped.
    by rewrite (zip_graph f). }
  rewrite (change_axis_order_run h1 var A V1 Hv1).
  2:{ intros axis size Hin.
      apply dict_elem_get in Hin; [|rewrite HD1; apply dict_of_pairs_wf].
      rewrite HD1, dict_get_of_graph in Hin.
      destruct (decide (axis ∈ axes B)); [|done]. injection Hin as <-.
      destruct (decide (axis ∈ axes A)) as [?|Hnin]; [by left|right].
      unfold f. rewrite dict_get_None; [done|]. by rewrite Hkeys. }
  assert (Hshape : reshaped (shape_dict V1) A = shape V).
  { unfold reshaped. rewrite HD1.
    transitivity (f <$> axes A).
    - apply list_fmap_ext. intros i a Ha. rewrite dict_get_of_graph.
      rewrite decide_True; [done|].
      apply Hsub. by eapply list_elem_of_lookup_2.
    - unfold f. rewrite HD. by apply reshaped_zip. }
  rewrite Hshape.
  assert (HV2 : set_shape_order (shape V) A V1 = V)
    by (unfold V1, set_shape_order; destruct V; simpl in *; congruence).
  rewrite HV2. eexists _, V. split; [done|]. cbn [variables].
  rewrite lookup_insert_eq. split_and!; try done.
  subst h1. cbn [operators variables].
  rewrite insert_insert_eq, insert_id by done. by destruct h.
Qed.

Lemma change_axis_order_round_trip_witness :
  ∃ h1 V1,
    change_axis_order v NCHW chw_heap = (Return tt, h1) ∧
    variables h1 !! v = Some V1 ∧ axis_order V1 = NCHW ∧
    ∃ h2 V2,
      change_axis_order v CHW h1 = (Return tt, h2) ∧
      variables h2 !! v = Some V2 ∧
      shape V2 = [3; 8; 8] ∧ axis_order V2 = CHW ∧ h2 = chw_heap.
Proof.
  apply (change_axis_order_round_trip chw_heap v CHW NCHW
           (mkVariable (mkNode [CHW] (Some [])) [3; 8; 8] ∅ None CHW)).
  - vm_compute; reflexivity.
  - reflexivity.
  - apply (bool_decide_unpack _). vm_compute. exact I.
  - reflexivity.
  - apply (bool_decide_unpack _). vm_compute. exact I.
Defined.

(** ** The parameter bag after construction *)

(** C10.  [Operator(name)], constructed with no parameter mapping, has
    [parameters] equal to [None], not to an empty mapping, although the Node
    constructor alone installs an empty mapping; reading a key of it raises
    ([TypeError] for [key in p] and [p[key]], [AttributeError] for
    [p.get(key)]) instead of reporting the key absent.  A Variable whose
    construction returns has the empty mapping, and its [name] reads as the
    empty string. *)
Theorem parameters_after_construction h nm shape order :
  ndim order = length shape →
  (∃ r h' O,
     Operator_new nm None h = (Return r, h') ∧
     operators h' !! r = Some O ∧
     parameters (op_node O) = None ∧
     ∀ key,
       py_contains key (parameters (op_node O)) = Raise TypeError ∧
       py_getitem key (parameters (op_node O)) = Raise TypeError ∧
       py_get key (parameters (op_node O)) = Raise AttributeError) ∧
  (∀ cls_attributes, parameters (Node_init cls_attributes None) = Some []) ∧
  (∃ r h' V,
     Variable_new shape order h = (Return r, h') ∧
     variables h' !! r = Some V ∧
     parameters (var_node V) = Some [] ∧
     Variable_name r h' = (Return (VStr ""), h')).
Proof.
  intros Hndim. split_and!.
  - eexists _, _, _. split; [reflexivity|]. cbn [operators].
    rewrite lookup_insert_eq. by split_and!.
  - done.
  - unfold Variable_new, Variable_init. rewrite decide_True by done.
    eexists _, _, _. split; [reflexivity|]. cbn [variables].
    rewrite lookup_insert_eq. split_and!; [done..|].
    unfold Variable_name. unfold_M. by rewrite lookup_insert_eq.
Qed.

Lemma parameters_after_construction_witness :
  (∃ r h' O,
     Operator_new "conv" None empty_heap = (Return r, h') ∧
     operators h' !! r = Some O ∧
     parameters (op_node O) = None ∧
     ∀ key,
       py_contains key (parameters (op_node O)) = Raise TypeError ∧
       py_getitem key (parameters (op_node O)) = Raise TypeError ∧
       py_get key (parameters (op_node O)) = Raise AttributeError) ∧
  (∀ cls_attributes, parameters (Node_init cls_attributes None) = Some []) ∧
  (∃ r h' V,
     Variable_new [1; 3; 8; 8] NCHW empty_heap = (Return r, h') ∧
     variables h' !! r = Some V ∧
     parameters (var_node V) = Some [] ∧
     Variable_name r h' = (Return (VStr ""), h')).
Proof.
  apply (parameters_after_construction empty_heap "conv" [1; 3; 8; 8] NCHW).
  reflexivity.
Defined.

(** ** Why the statements above read as they do *)

(** [replace_input] replaces the first slot that holds [old]: with [v] in
    the slots "a" and "b" of [conv], [conv.replace_input(v, w)] puts [w] in
    slot "a", and slot "b" still holds [v]. *)
Example replace_input_takes_first_slot :
  ∃ h',
    replace_input conv v w conv_ab_v = (Return tt, h') ∧
    inputs <$> operators h' !! conv = Some [("b", v); ("a", w)].
Proof. eexists. split; vm_compute; reflexivity. Qed.

(** [replace_input] raises where [op] is not in [old.input_to]: after
    [conv.remove_input(v)] on the graph above, [v] is still in slot "b";
    [conv.replace_input(v, w)] then removes slot "b" and raises the
    [KeyError] of [set.remove]. *)
Example replace_input_without_back_link :
  ∃ h',
    replace_input conv v w (remove_input conv v conv_ab_v).2
      = (Raise (KeyError MissingElement), h') ∧
    inputs <$> operators h' !! conv = Some [].
Proof. eexists. split; vm_compute; reflexivity. Qed.

(** The round trip needs the axes of [A] to be distinct: under an order
    that names "N" twice, the mapping keeps one size for "N", and the shape
    [2,3] comes back as [3,3]. *)
Example change_axis_order_repeated_axis :
  let NN := mkAxisOrder 2 ["N"; "N"] in
  let N := mkAxisOrder 1 ["N"] in
  ∃ r h0 h1 h2,
    Variable_new [2; 3] NN empty_heap = (Return r, h0) ∧
    change_axis_order r N h0 = (Return tt, h1) ∧
    change_axis_order r NN h1 = (Return tt, h2) ∧
    shape <$> variables h2 !! r = Some [3; 3].
Proof. eexists _, _, _, _. split_and!; vm_compute; reflexivity. Qed.

(** * Further properties of the link protocol *)

(** ** More on dicts *)

Section DictMore.
Context {K V : Type} `{EqDecision K}.
Implicit Types (d : dict K V) (k : K) (v : V).

Lemma dict_get_del_ne k k' d : k' ≠ k → dict_get k (dict_del k' d) = dict_get k d.
Proof.
  intros Hne. induction d as [|[k0 v0] d IH]; simpl; [done|].
  destruct (decide (k0 = k')) as [->|Hk0]; simpl.
  - by rewrite decide_False.
  - by rewrite IH.
Qed.

Lemma dict_get_del_eq k d : dict_wf d → dict_get k (dict_del k d) = None.
Proof. intros Hwf. apply dict_get_None. by apply dict_del_keys. Qed.

Lemma dict_del_set_fresh k v d : k ∉ d.*1 → dict_del k (dict_set k v d) = d.
Proof.
  induction d as [|[k0 v0] d IH]; simpl.
  - intros _. by rewrite decide_True.
  - rewrite not_elem_of_cons. intros [Hne Hk].
    rewrite decide_False by done. simpl.
    rewrite decide_False by done. by rewrite IH.
Qed.

Lemma dict_del_set_del k v d :
  dict_wf d → dict_set k v (dict_del k d) = dict_del k d ++ [(k, v)].
Proof. intros Hwf. apply dict_set_fresh. by apply dict_del_keys. Qed.

Lemma dict_set_set k v v' d : dict_set k v (dict_set k v' d) = dict_set k v d.
Proof.
  induction d as [|[k0 v0] d IH]; simpl.
  - by rewrite decide_True.
  - destruct (decide (k0 = k)) as [->|Hne]; simpl.
    + by rewrite decide_True.
    + rewrite decide_False by done. by rewrite IH.
Qed.

Lemma dict_del_values_NoDup k d : NoDup d.*2 → NoDup (dict_del k d).*2.
Proof.
  induction d as [|[k0 v0] d IH]; simpl; [done|].
  rewrite NoDup_cons. intros [Hv0 Hnd].
  destruct (decide (k0 = k)) as [->|Hne]; [done|].
  simpl. apply NoDup_cons. split; [|auto].
  intros Hin. apply Hv0. apply list_elem_of_fmap in Hin as [[k1 v1] [-> Hin]].
  apply dict_del_elem in Hin. apply list_elem_of_fmap. by exists (k1, v1).
Qed.

Lemma dict_set_values_NoDup k v d :
  NoDup d.*2 → v ∉ d.*2 → NoDup (dict_set k v d).*2.
Proof.
  induction d as [|[k0 v0] d IH]; simpl.
  - intros _ _. apply NoDup_singleton.
  - rewrite NoDup_cons, not_elem_of_cons. intros [Hv0 Hnd] [Hne Hv].
    destruct (decide (k0 = k)) as [->|Hk]; simpl; apply NoDup_cons.
    + done.
    + split; [|auto]. intros Hin.
      apply list_elem_of_fmap in Hin as [[k1 v1] [Heq Hin]]. simpl in Heq.
      subst v1. apply dict_set_elem in Hin as [[= _ ->]|Hin]; [done|].
      apply Hv0. apply list_elem_of_fmap. by exists (k1, v0).
Qed.
End DictMore.

Lemma first_slot_set_fresh (items : dict string vref) s var :
  var ∉ items.*2 → first_slot (dict_set s var items) var = Some s.
Proof.
  unfold first_slot. induction items as [|[k0 v0] items IH]; simpl.
  - intros _. by rewrite decide_True.
  - rewrite not_elem_of_cons. intros [Hne Hv].
    destruct (decide (k0 = s)) as [->|Hk]; simpl.
    + by rewrite decide_True.
    + rewrite decide_False by done. specialize (IH Hv).
      destruct (list_find _ (dict_set s var items)) as [[i [n x]]|];
        simpl in *; [done|done].
Qed.

Lemma slots_holding_NoDup (items : dict string vref) var :
  NoDup items.*2 → (length (slots_holding items var) ≤ 1)%nat.
Proof.
  unfold slots_holding. induction items as [|[k0 v0] items IH]; simpl; [lia|].
  rewrite NoDup_cons. intros [Hv0 Hnd].
  destruct (decide (v0 = var)) as [->|Hne].
  - rewrite filter_cons_True by done. simpl.
    destruct (filter (λ kv : string * vref, kv.2 = var) items)
      as [|[k1 v1] rest] eqn:Hf; [simpl; lia|].
    exfalso. assert (Hin : (k1, v1) ∈ filter (λ kv : string * vref, kv.2 = var) items)
      by (rewrite Hf; left).
    apply list_elem_of_filter in Hin as [Heq Hin]. simpl in Heq. subst v1.
    apply Hv0. apply list_elem_of_fmap. by exists (k1, var).
  - rewrite filter_cons_False by done. auto.
Qed.

Lemma set_inputs_id O : set_inputs (inputs O) O = O.
Proof. by destruct O. Qed.
Lemma set_outputs_id O : set_outputs (outputs O) O = O.
Proof. by destruct O. Qed.

(** ** The reverse lookups *)

Lemma find_name_correct items var msg :
  (∀ s, find_name items var None msg = Return s ↔ first_slot items var = Some s) ∧
  (var ∈ items.*2 ↔ ∃ s, find_name items var None msg = Return s) ∧
  (∀ s, find_name items var None msg = Return s →
        (s, var) ∈ items ∧ (dict_wf items → dict_get s items = Some var)).
Proof.
  split_and!.
  - intros s. split; [apply find_name_Return|apply find_name_first_slot].
  - split.
    + intros Hin. destruct (first_slot items var) as [s|] eqn:Hs.
      * exists s. by apply find_name_first_slot.
      * by apply first_slot_None in Hs.
    + intros [s Hs]. apply find_name_Return, first_slot_elem in Hs.
      apply list_elem_of_fmap. by exists (s, var).
  - intros s Hs. apply find_name_Return in Hs. split.
    + by apply first_slot_elem.
    + intros Hwf. by apply first_slot_get.
Qed.

(** [op.get_input_name(var)] never changes the heap; it returns a name
    exactly when [var] is in some slot of [op.inputs], the name returned is
    that of the first slot (in insertion order) holding [var], and looking
    that name up in [op.inputs] gives [var] back. *)
Theorem get_input_name_correct h op O var :
  operators h !! op = Some O →
  (get_input_name op var h).2 = h ∧
  (∀ s, (get_input_name op var h).1 = Return s
        ↔ first_slot (inputs O) var = Some s) ∧
  (var ∈ (inputs O).*2 ↔ ∃ s, (get_input_name op var h).1 = Return s) ∧
  (∀ s, (get_input_name op var h).1 = Return s →
        (s, var) ∈ inputs O ∧
        (dict_wf (inputs O) → dict_get s (inputs O) = Some var)).
Proof.
  intros Hop. rewrite (get_input_name_run h op O Hop). cbn [fst snd].
  split; [done|]. apply find_name_correct.
Qed.

Lemma get_input_name_correct_witness :
  (get_input_name conv v conv_ab_v).2 = conv_ab_v ∧
  (∀ s, (get_input_name conv v conv_ab_v).1 = Return s
        ↔ first_slot [("a", v); ("b", v)] v = Some s) ∧
  (v ∈ [("a", v); ("b", v)].*2
     ↔ ∃ s, (get_input_name conv v conv_ab_v).1 = Return s) ∧
  (∀ s, (get_input_name conv v conv_ab_v).1 = Return s →
        (s, v) ∈ [("a", v); ("b", v)] ∧
        (dict_wf [("a", v); ("b", v)]
           → dict_get s [("a", v); ("b", v)] = Some v)).
Proof.
  apply (get_input_name_correct conv_ab_v conv
           (mkOperator (mkNode [] None) "conv" [("a", v); ("b", v)] [])).
  vm_compute; reflexivity.
Defined.

(** [op.get_output_name(var)]: the same for [op.outputs]. *)
Theorem get_output_name_correct h op O var :
  operators h !! op = Some O →
  (get_output_name op var h).2 = h ∧
  (∀ s, (get_output_name op var h).1 = Return s
        ↔ first_slot (outputs O) var = Some s) ∧
  (var ∈ (outputs O).*2 ↔ ∃ s, (get_output_name op var h).1 = Return s) ∧
  (∀ s, (get_output_name op var h).1 = Return s →
        (s, var) ∈ outputs O ∧
        (dict_wf (outputs O) → dict_get s (outputs O) = Some var)).
Proof.
  intros Hop. rewrite (get_output_name_run h op O Hop). cbn [fst snd].
  split; [done|]. apply find_name_correct.
Qed.

Lemma get_output_name_correct_witness :
  (get_output_name conv v conv_y_v).2 = conv_y_v ∧
  (∀ s, (get_output_name conv v conv_y_v).1 = Return s
        ↔ first_slot [("y", v)] v = Some s) ∧
  (v ∈ [("y", v)].*2
     ↔ ∃ s, (get_output_name conv v conv_y_v).1 = Return s) ∧
  (∀ s, (get_output_name conv v conv_y_v).1 = Return s →
        (s, v) ∈ [("y", v)] ∧
        (dict_wf [("y", v)] → dict_get s [("y", v)] = Some v)).
Proof.
  apply (get_output_name_correct conv_y_v conv
           (mkOperator (mkNode [] None) "conv" [] [("y", v)])).
  vm_compute; reflexivity.
Defined.

(** ** remove_input *)

(** [op.remove_input(var)], with [var] an input of [op] whose first slot is
    [s] and with [op] in [var.input_to]: the call returns; slot [s] is
    deleted and every other slot is as it was; [op] is removed from
    [var.input_to]; no other Operator and no other Variable is touched. *)
Theorem remove_input_unlinks h op O var V s :
  operators h !! op = Some O →
  dict_wf (inputs O) →
  variables h !! var = Some V →
  first_slot (inputs O) var = Some s →
  op ∈ input_to V →
  ∃ h' O' V',
    remove_input op var h = (Return tt, h') ∧
    operators h' !! op = Some O' ∧ variables h' !! var = Some V' ∧
    inputs O' = dict_del s (inputs O) ∧
    dict_get s (inputs O') = None ∧
    (∀ s', s' ≠ s → dict_get s' (inputs O') = dict_get s' (inputs O)) ∧
    outputs O' = outputs O ∧
    input_to V' = input_to V ∖ {[op]} ∧ (op ∉ input_to V') ∧
    output_from V' = output_from V ∧ shape V' = shape V ∧
    (∀ op', op' ≠ op → operators h' !! op' = operators h !! op') ∧
    (∀ var', var' ≠ var → variables h' !! var' = variables h !! var').
Proof.
  intros Hop Hwf Hv Hs Hin.
  rewrite (remove_input_run h op O Hop var V s Hs Hv), decide_True by done.
  eexists _, _, _. split; [done|]. cbn [operators variables].
  rewrite !lookup_insert_eq. split_and!; try done.
  - simpl. by apply dict_get_del_eq.
  - intros s' Hne. simpl. by apply dict_get_del_ne.
  - simpl. rewrite elem_of_difference, elem_of_singleton. intros [_ Hn]. by apply Hn.
  - intros op' Hne. by rewrite lookup_insert_ne.
  - intros var' Hne. by rewrite lookup_insert_ne.
Qed.

Lemma remove_input_unlinks_witness :
  let O := mkOperator (mkNode [] None) "conv" [("x", v)] [] in
  let V := mkVariable (mkNode [NCHW] (Some [])) [1; 3; 8; 8] {[conv]} None NCHW in
  ∃ h' O' V',
    remove_input conv v conv_x_v = (Return tt, h') ∧
    operators h' !! conv = Some O' ∧ variables h' !! v = Some V' ∧
    inputs O' = dict_del "x" (inputs O) ∧
    dict_get "x" (inputs O') = None ∧
    (∀ s', s' ≠ "x" → dict_get s' (inputs O') = dict_get s' (inputs O)) ∧
    outputs O' = outputs O ∧
    input_to V' = input_to V ∖ {[conv]} ∧ (conv ∉ input_to V') ∧
    output_from V' = output_from V ∧ shape V' = shape V ∧
    (∀ op', op' ≠ conv → operators h' !! op' = operators conv_x_v !! op') ∧
    (∀ var', var' ≠ v → variables h' !! var' = variables conv_x_v !! var').
Proof.
  intros O V. apply (remove_input_unlinks conv_x_v conv O v V "x").
  - vm_compute; reflexivity.
  - apply NoDup_singleton.
  - vm_compute; reflexivity.
  - vm_compute; reflexivity.
  - simpl. apply elem_of_singleton_2. reflexivity.
Defined.

(** [op.remove_input(var)] on a graph whose back-link is missing ([var] is
    in a slot of [op.inputs] but [op] is not in [var.input_to]) raises the
    [KeyError] of [set.remove] after the slot has been popped: the slot is
    gone, and the Variables are as they were. *)
Theorem remove_input_without_back_link_pops_then_raises h op O var V s :
  operators h !! op = Some O →
  variables h !! var = Some V →
  first_slot (inputs O) var = Some s →
  op ∉ input_to V →
  ∃ h' O',
    remove_input op var h = (Raise (KeyError MissingElement), h') ∧
    operators h' !! op = Some O' ∧
    inputs O' = dict_del s (inputs O) ∧
    (s, var) ∈ inputs O ∧
    (dict_wf (inputs O) → dict_get s (inputs O') = None) ∧
    variables h' = variables h.
Proof.
  intros Hop Hv Hs Hnin.
  rewrite (remove_input_run h op O Hop var V s Hs Hv), decide_False by done.
  eexists _, _. split; [done|]. cbn [operators variables].
  rewrite lookup_insert_eq. split_and!; try done.
  - by apply first_slot_elem.
  - intros Hwf. simpl. by apply dict_get_del_eq.
Qed.

Lemma remove_input_without_back_link_pops_then_raises_witness :
  let h := (remove_input conv v conv_ab_v).2 in
  let O := mkOperator (mkNode [] None) "conv" [("b", v)] [] in
  ∃ h' O',
    remove_input conv v h = (Raise (KeyError MissingElement), h') ∧
    operators h' !! conv = Some O' ∧
    inputs O' = dict_del "b" (inputs O) ∧
    (("b", v) ∈ inputs O) ∧
    (dict_wf (inputs O) → dict_get "b" (inputs O') = None) ∧
    variables h' = variables h.
Proof.
  intros h O.
  apply (remove_input_without_back_link_pops_then_raises h conv O v
           (mkVariable (mkNode [NCHW] (Some [])) [1; 3; 8; 8] ∅ None NCHW) "b").
  - vm_compute; reflexivity.
  - vm_compute; reflexivity.
  - vm_compute; reflexivity.
  - simpl. apply not_elem_of_empty.
Defined.

(** [op.remove_input(var)] undoes [op.append_input(s, var)]: when slot [s]
    is free, [var] is in no slot of [op.inputs] and [op] is not in
    [var.input_to], appending and then removing gives back the heap as it
    was. *)
Theorem remove_input_undoes_append_input h op O var V s :
  operators h !! op = Some O →
  variables h !! var = Some V →
  s ∉ (inputs O).*1 →
  var ∉ (inputs O).*2 →
  op ∉ input_to V →
  ∃ h1,
    append_input op s var h = (Return tt, h1) ∧
    remove_input op var h1 = (Return tt, h).
Proof.
  intros Hop Hv Hs Hvar Hnin.
  rewrite (append_input_run h op O Hop s var V Hv).
  eexists. split; [done|].
  erewrite remove_input_run; [|apply lookup_insert_eq| |apply lookup_insert_eq].
  2:{ simpl. by apply first_slot_set_fresh. }
  rewrite decide_True by (simpl; apply elem_of_union_l; by apply elem_of_singleton).
  cbn [operators variables]. rewrite !insert_insert_eq.
  unfold set_inputs, set_input_to. simpl.
  rewrite dict_del_set_fresh by done.
  assert (Hset : ({[op]} ∪ input_to V) ∖ {[op]} = input_to V).
  { apply set_eq. intros x.
    rewrite elem_of_difference, elem_of_union, !elem_of_singleton. split.
    - by intros [[->|?] ?].
    - intros Hx. split; [by right|]. by intros ->. }
  rewrite Hset.
  rewrite !insert_id; [by destruct h| |].
  - rewrite Hv. by destruct V.
  - rewrite Hop. by destruct O.
Qed.

Lemma remove_input_undoes_append_input_witness :
  ∃ h1,
    append_input conv "x" v unlinked = (Return tt, h1) ∧
    remove_input conv v h1 = (Return tt, unlinked).
Proof.
  apply (remove_input_undoes_append_input unlinked conv
           (Operator_init "conv" None) v
           (mkVariable (mkNode [NCHW] (Some [])) [1; 3; 8; 8] ∅ None NCHW) "x").
  - vm_compute; reflexivity.
  - vm_compute; reflexivity.
  - simpl. apply not_elem_of_nil.
  - simpl. apply not_elem_of_nil.
  - simpl. apply not_elem_of_empty.
Defined.

(** [op.append_input(s, var)] twice is [op.append_input(s, var)] once. *)
Theorem append_input_idempotent h op O var V s :
  operators h !! op = Some O →
  variables h !! var = Some V →
  ∃ h1,
    append_input op s var h = (Return tt, h1) ∧
    append_input op s var h1 = (Return tt, h1).
Proof.
  intros Hop Hv.
  rewrite (append_input_run h op O Hop s var V Hv).
  eexists. split; [done|].
  erewrite append_input_run; [|apply lookup_insert_eq..].
  cbn [operators variables]. rewrite !insert_insert_eq.
  unfold set_inputs, set_input_to. simpl. rewrite dict_set_set.
  assert (Hset : {[op]} ∪ ({[op]} ∪ input_to V) = {[op]} ∪ input_to V)
    by (by rewrite (assoc_L (∪)), union_idemp_L).
  by rewrite Hset.
Qed.

Lemma append_input_idempotent_witness :
  ∃ h1,
    append_input conv "x" v unlinked = (Return tt, h1) ∧
    append_input conv "x" v h1 = (Return tt, h1).
Proof.
  apply (append_input_idempotent unlinked conv
           (Operator_init "conv" None) v
           (mkVariable (mkNode [NCHW] (Some [])) [1; 3; 8; 8] ∅ None NCHW) "x");
    vm_compute; reflexivity.
Defined.

(** [op.replace_input(old, new)] pops the slot of [old] and inserts [new]
    under the same name: the slot keeps its name and moves to the end of
    the insertion order of [op.inputs]; the other slots keep their values
    and their relative order, and [op.outputs] is as it was. *)
Theorem replace_input_moves_slot_last h op old new O Vold Vnew s :
  operators h !! op = Some O →
  dict_wf (inputs O) →
  variables h !! old = Some Vold →
  variables h !! new = Some Vnew →
  first_slot (inputs O) old = Some s →
  op ∈ input_to Vold →
  ∃ h' O',
    replace_input op old new h = (Return tt, h') ∧
    operators h' !! op = Some O' ∧
    inputs O' = dict_del s (inputs O) ++ [(s, new)] ∧
    (∀ s', s' ≠ s → dict_get s' (inputs O') = dict_get s' (inputs O)) ∧
    outputs O' = outputs O.
Proof.
  intros Hop Hwf Hold Hnew Hs Hin.
  rewrite (replace_input_unfold h op O old new Hop).
  rewrite (find_name_first_slot _ _ _ _ _ Hs).
  rewrite (remove_input_run h op O Hop old Vold s Hs Hold).
  rewrite decide_True by done.
  set (h1 := mkHeap _ _).
  assert (Hop1 : operators h1 !! op
                 = Some (set_inputs (dict_del s (inputs O)) O))
    by apply lookup_insert_eq.
  assert (∃ V1, variables h1 !! new = Some V1) as [V1 Hnew1].
  { subst h1. cbn [variables]. destruct (decide (new = old)) as [->|Hne].
    - rewrite lookup_insert_eq. by eexists.
    - rewrite lookup_insert_ne by done. by eexists. }
  rewrite (append_input_run h1 op _ Hop1 s new V1 Hnew1).
  eexists _, _. split; [done|]. cbn [operators].
  rewrite lookup_insert_eq. split_and!; try done.
  - simpl. by apply dict_del_set_del.
  - intros s' Hne. simpl. rewrite dict_get_set, decide_False by done.
    by apply dict_get_del_ne.
Qed.

Lemma replace_input_moves_slot_last_witness :
  let O := mkOperator (mkNode [] None) "conv" [("a", v); ("b", v)] [] in
  ∃ h' O',
    replace_input conv v w conv_ab_v = (Return tt, h') ∧
    operators h' !! conv = Some O' ∧
    inputs O' = dict_del "a" (inputs O) ++ [("a", w)] ∧
    (∀ s', s' ≠ "a" → dict_get s' (inputs O') = dict_get s' (inputs O)) ∧
    outputs O' = outputs O.
Proof.
  intros O.
  apply (replace_input_moves_slot_last conv_ab_v conv v w O
           (mkVariable (mkNode [NCHW] (Some [])) [1; 3; 8; 8] {[conv]} None NCHW)
           (mkVariable (mkNode [NCHW] (Some [])) [1; 3; 8; 8] ∅ None NCHW) "a").
  - vm_compute; reflexivity.
  - apply (bool_decide_unpack _). vm_compute. exact I.
  - vm_compute; reflexivity.
  - vm_compute; reflexivity.
  - vm_compute; reflexivity.
  - simpl. apply elem_of_singleton_2. reflexivity.
Defined.

(** ** remove_output and replace_output *)

(** [op.remove_output(var)], with [var] an output of [op] whose first slot
    is [s]: the call returns; slot [s] is deleted and every other slot is as
    it was; [var.output_from] is [None], whatever it was before; no other
    Operator and no other Variable is touched. *)
Theorem remove_output_unlinks h op O var V s :
  operators h !! op = Some O →
  dict_wf (outputs O) →
  variables h !! var = Some V →
  first_slot (outputs O) var = Some s →
  ∃ h' O' V',
    remove_output op var h = (Return tt, h') ∧
    operators h' !! op = Some O' ∧ variables h' !! var = Some V' ∧
    outputs O' = dict_del s (outputs O) ∧
    dict_get s (outputs O') = None ∧
    (∀ s', s' ≠ s → dict_get s' (outputs O') = dict_get s' (outputs O)) ∧
    inputs O' = inputs O ∧
    output_from V' = None ∧
    input_to V' = input_to V ∧ shape V' = shape V ∧
    (∀ op', op' ≠ op → operators h' !! op' = operators h !! op') ∧
    (∀ var', var' ≠ var → variables h' !! var' = variables h !! var').
Proof.
  intros Hop Hwf Hv Hs.
  rewrite (remove_output_run h op O Hop var V s Hwf Hs Hv).
  eexists _, _, _. split; [done|]. cbn [operators variables].
  rewrite !lookup_insert_eq. split_and!; try done.
  - simpl. by apply dict_get_del_eq.
  - intros s' Hne. simpl. by apply dict_get_del_ne.
  - intros op' Hne. by rewrite lookup_insert_ne.
  - intros var' Hne. by rewrite lookup_insert_ne.
Qed.

Lemma remove_output_unlinks_witness :
  let O := mkOperator (mkNode [] None) "conv" [] [("y", v)] in
  let V := mkVariable (mkNode [NCHW] (Some [])) [1; 3; 8; 8] ∅ (Some conv) NCHW in
  ∃ h' O' V',
    remove_output conv v conv_y_v = (Return tt, h') ∧
    operators h' !! conv = Some O' ∧ variables h' !! v = Some V' ∧
    outputs O' = dict_del "y" (outputs O) ∧
    dict_get "y" (outputs O') = None ∧
    (∀ s', s' ≠ "y" → dict_get s' (outputs O') = dict_get s' (outputs O)) ∧
    inputs O' = inputs O ∧
    output_from V' = None ∧
    input_to V' = input_to V ∧ shape V' = shape V ∧
    (∀ op', op' ≠ conv → operators h' !! op' = operators conv_y_v !! op') ∧
    (∀ var', var' ≠ v → variables h' !! var' = variables conv_y_v !! var').
Proof.
  intros O V. apply (remove_output_unlinks conv_y_v conv O v V "y").
  - vm_compute; reflexivity.
  - apply NoDup_singleton.
  - vm_compute; reflexivity.
  - vm_compute; reflexivity.
Defined.

(** [op.remove_output(var)] undoes [op.append_output(s, var)]: when [var]
    has no producer, slot [s] is free and [var] is in no slot of
    [op.outputs], appending and then removing gives back the heap as it
    was. *)
Theorem remove_output_undoes_append_output h op O var V s :
  operators h !! op = Some O →
  dict_wf (outputs O) →
  variables h !! var = Some V →
  output_from V = None →
  s ∉ (outputs O).*1 →
  var ∉ (outputs O).*2 →
  ∃ h1,
    append_output op s var h = (Return tt, h1) ∧
    remove_output op var h1 = (Return tt, h).
Proof.
  intros Hop Hwf Hv Hp Hs Hvar.
  rewrite (append_output_run h op O Hop s var V Hv), Hp.
  eexists. split; [done|].
  erewrite remove_output_run;
    [|apply lookup_insert_eq| | |apply lookup_insert_eq].
  2:{ simpl. by apply dict_set_wf. }
  2:{ simpl. by apply first_slot_set_fresh. }
  cbn [operators variables]. rewrite !insert_insert_eq.
  unfold set_outputs, set_output_from. simpl.
  rewrite dict_del_set_fresh by done.
  rewrite !insert_id; [by destruct h| |].
  - rewrite Hv. destruct V; simpl in *; by subst.
  - rewrite Hop. by destruct O.
Qed.

Lemma remove_output_undoes_append_output_witness :
  ∃ h1,
    append_output conv "y" v unlinked = (Return tt, h1) ∧
    remove_output conv v h1 = (Return tt, unlinked).
Proof.
  apply (remove_output_undoes_append_output unlinked conv
           (Operator_init "conv" None) v
           (mkVariable (mkNode [NCHW] (Some [])) [1; 3; 8; 8] ∅ None NCHW) "y").
  - vm_compute; reflexivity.
  - apply NoDup_nil_2.
  - vm_compute; reflexivity.
  - reflexivity.
  - simpl. apply not_elem_of_nil.
  - simpl. apply not_elem_of_nil.
Defined.

(** [op.replace_output(old, new)], with [old] an output of [op] whose first
    slot is [s], and [new] either without a producer or [old] itself: the
    call returns; slot [s] holds [new] and is last in the insertion order of
    [op.outputs]; [new.output_from] is [op]; and, when [new] is not [old],
    [old.output_from] is [None]. *)
Theorem replace_output_relinks h op old new O Vold Vnew s :
  operators h !! op = Some O →
  dict_wf (outputs O) →
  variables h !! old = Some Vold →
  variables h !! new = Some Vnew →
  first_slot (outputs O) old = Some s →
  new = old ∨ output_from Vnew = None →
  ∃ h' O' V',
    replace_output op old new h = (Return tt, h') ∧
    operators h' !! op = Some O' ∧
    outputs O' = dict_del s (outputs O) ++ [(s, new)] ∧
    dict_get s (outputs O') = Some new ∧
    inputs O' = inputs O ∧
    variables h' !! new = Some V' ∧ output_from V' = Some op ∧
    (new ≠ old → ∃ Vold', variables h' !! old = Some Vold' ∧
                          output_from Vold' = None).
Proof.
  intros Hop Hwf Hold Hnew Hs Hcase.
  rewrite (replace_output_unfold h op O old new Hop).
  rewrite (find_name_first_slot _ _ _ _ _ Hs).
  rewrite (remove_output_run h op O Hop old Vold s Hwf Hs Hold).
  set (h1 := mkHeap _ _).
  assert (Hop1 : operators h1 !! op
                 = Some (set_outputs (dict_del s (outputs O)) O))
    by apply lookup_insert_eq.
  assert (∃ V1, variables h1 !! new = Some V1 ∧ output_from V1 = None)
    as (V1 & Hnew1 & Hp1).
  { subst h1. cbn [variables]. destruct (decide (new = old)) as [->|Hne].
    - rewrite lookup_insert_eq. by eexists.
    - rewrite lookup_insert_ne by done. exists Vnew. split; [done|].
      by destruct Hcase. }
  rewrite (append_output_run h1 op _ Hop1 s new V1 Hnew1), Hp1.
  eexists _, _, _. split; [done|]. cbn [operators variables].
  rewrite !lookup_insert_eq. split_and!; try done.
  - simpl. by apply dict_del_set_del.
  - simpl. apply dict_get_set_eq.
  - intros Hne. rewrite lookup_insert_ne by done.
    subst h1. cbn [variables]. rewrite lookup_insert_eq. by eexists.
Qed.

Lemma replace_output_relinks_witness :
  let O := mkOperator (mkNode [] None) "conv" [] [("y", v)] in
  ∃ h' O' V',
    replace_output conv v w conv_y_v = (Return tt, h') ∧
    operators h' !! conv = Some O' ∧
    outputs O' = dict_del "y" (outputs O) ++ [("y", w)] ∧
    dict_get "y" (outputs O') = Some w ∧
    inputs O' = inputs O ∧
    variables h' !! w = Some V' ∧ output_from V' = Some conv ∧
    (w ≠ v → ∃ Vold', variables h' !! v = Some Vold' ∧
                      output_from Vold' = None).
Proof.
  intros O.
  apply (replace_output_relinks conv_y_v conv v w O
           (mkVariable (mkNode [NCHW] (Some [])) [1; 3; 8; 8] ∅ (Some conv) NCHW)
           (mkVariable (mkNode [NCHW] (Some [])) [1; 3; 8; 8] ∅ None NCHW) "y").
  - vm_compute; reflexivity.
  - apply NoDup_singleton.
  - vm_compute; reflexivity.
  - vm_compute; reflexivity.
  - vm_compute; reflexivity.
  - right. reflexivity.
Defined.

(** ** The single-writer invariant *)

Lemma same_outputs_refl h : same_outputs h h.
Proof. by split. Qed.

Lemma same_outputs_trans h1 h2 h3 :
  same_outputs h1 h2 → same_outputs h2 h3 → same_outputs h1 h3.
Proof.
  intros [Ho Hv] [Ho' Hv']. split; intros x.
  - by rewrite Ho', Ho.
  - by rewrite Hv', Hv.
Qed.

Lemma same_outputs_consistent h h' :
  same_outputs h h' → outputs_consistent h → outputs_consistent h'.
Proof.
  intros [Ho Hv] Hinv op O' Hop.
  specialize (Ho op). rewrite Hop in Ho. simpl in Ho.
  destruct (operators h !! op) as [O|] eqn:HO; [|done].
  injection Ho as Ho. rewrite Ho.
  destruct (Hinv op O HO) as (Hwf & Hnd & Hall). split_and!; [done..|].
  intros s var Hin. destruct (Hall s var Hin) as (V & HV & Hp).
  specialize (Hv var). rewrite HV in Hv. simpl in Hv.
  destruct (variables h' !! var) as [V'|]; [|done].
  injection Hv as Hv. exists V'. by rewrite Hv.
Qed.

Lemma write_inputs_same_outputs h op O d :
  operators h !! op = Some O →
  same_outputs h (mkHeap (<[op := set_inputs d O]> (operators h)) (variables h)).
Proof.
  intros Hop. split; [|done]. intros op'. cbn [operators].
  destruct (decide (op' = op)) as [->|Hne].
  - by rewrite lookup_insert_eq, Hop.
  - by rewrite lookup_insert_ne.
Qed.

Lemma write_input_to_same_outputs h var V X :
  variables h !! var = Some V →
  same_outputs h (mkHeap (operators h) (<[var := set_input_to X V]> (variables h))).
Proof.
  intros Hv. split; [done|]. intros var'. cbn [variables].
  destruct (decide (var' = var)) as [->|Hne].
  - by rewrite lookup_insert_eq, Hv.
  - by rewrite lookup_insert_ne.
Qed.

Lemma append_input_same_outputs op s var h :
  same_outputs h (append_input op s var h).2.
Proof.
  unfold append_input. unfold_M.
  destruct (operators h !! op) as [O|] eqn:Hop; [|apply same_outputs_refl].
  cbn [operators variables].
  destruct (variables h !! var) as [V|] eqn:Hv; cbn [snd].
  - eapply same_outputs_trans; [by apply write_inputs_same_outputs|].
    by apply (write_input_to_same_outputs (mkHeap _ _)).
  - by apply write_inputs_same_outputs.
Qed.

Lemma remove_input_same_outputs op var h :
  same_outputs h (remove_input op var h).2.
Proof.
  unfold remove_input. unfold mbind, M_bind.
  unfold get_input_name at 1. unfold_M.
  destruct (operators h !! op) as [O|] eqn:Hop; [|apply same_outputs_refl].
  destruct (find_name _ _ _ _) as [s| |]; [|apply same_outputs_refl..].
  rewrite Hop.
  destruct (dict_pop s (inputs O)) as [[var' d]|]; [|apply same_outputs_refl].
  cbn [operators variables].
  destruct (variables h !! var) as [V|] eqn:Hv; cbn [snd].
  - destruct (decide (op ∈ input_to V)); cbn [snd].
    + eapply same_outputs_trans; [by apply write_inputs_same_outputs|].
      by apply (write_input_to_same_outputs (mkHeap _ _)).
    + by apply write_inputs_same_outputs.
  - by apply write_inputs_same_outputs.
Qed.

Lemma replace_input_same_outputs op v_old v_new h :
  same_outputs h (replace_input op v_old v_new h).2.
Proof.
  unfold replace_input. unfold mbind at 1. unfold M_bind at 1.
  unfold get_input_name. unfold mbind at 1. unfold M_bind at 1.
  unfold read_op at 1.
  destruct (operators h !! op) as [O|] eqn:Hop; [|apply same_outputs_refl].
  unfold lift at 1.
  destruct (find_name _ _ _ _) as [s| |]; [|apply same_outputs_refl..].
  unfold mbind, M_bind.
  pose proof (remove_input_same_outputs op v_old h) as H1.
  destruct (remove_input op v_old h) as [[[]| |] h1]; [|done..].
  eapply same_outputs_trans; [exact H1|]. apply append_input_same_outputs.
Qed.

Lemma append_output_outputs_consistent op s var h :
  outputs_consistent h → outputs_consistent (append_output op s var h).2.
Proof.
  intros Hinv.
  destruct (variables h !! var) as [V|] eqn:Hv.
  2:{ unfold append_output. unfold_M. by rewrite Hv. }
  destruct (operators h !! op) as [O|] eqn:Hop.
  2:{ unfold append_output. unfold_M. rewrite Hv.
      destruct (output_from V); [done|]. by rewrite Hop. }
  rewrite (append_output_run h op O Hop s var V Hv).
  destruct (output_from V) as [p|] eqn:Hp; [done|]. cbn [snd].
  assert (Hfree : ∀ op' O', operators h !! op' = Some O' → var ∉ (outputs O').*2).
  { intros op' O' Hop' Hin.
    apply list_elem_of_fmap in Hin as [[s' v'] [-> Hin]].
    destruct (Hinv op' O' Hop') as (_ & _ & Hall).
    destruct (Hall s' v' Hin) as (V' & HV' & Hp'). simpl in *. congruence. }
  assert (Hold : ∀ op' O' s' v', operators h !! op' = Some O' →
            (s', v') ∈ outputs O' →
            ∃ V', <[var := set_output_from (Some op) V]> (variables h) !! v'
                  = Some V' ∧ output_from V' = Some op').
  { intros op' O' s' v' Hop' Hin.
    assert (v' ≠ var).
    { intros ->. apply (Hfree op' O' Hop'). apply list_elem_of_fmap.
      by exists (s', var). }
    rewrite lookup_insert_ne by done.
    destruct (Hinv op' O' Hop') as (_ & _ & Hall). by apply (Hall s'). }
  intros op' O' Hop'. cbn [operators variables] in *.
  destruct (decide (op' = op)) as [->|Hne].
  - rewrite lookup_insert_eq in Hop'. injection Hop' as <-. simpl.
    destruct (Hinv op O Hop) as (Hwf & Hnd & _). split_and!.
    + by apply dict_set_wf.
    + apply dict_set_values_NoDup; [done|]. by apply (Hfree op).
    + intros s' v' Hin. apply dict_set_elem in Hin as [[= -> ->]|Hin].
      * rewrite lookup_insert_eq. by eexists.
      * by apply (Hold op O s').
  - rewrite lookup_insert_ne in Hop' by done.
    destruct (Hinv op' O' Hop') as (Hwf & Hnd & _). split_and!; [done..|].
    intros s' v' Hin. by apply (Hold op' O' s').
Qed.

Lemma remove_output_outputs_consistent op var h :
  outputs_consistent h → outputs_consistent (remove_output op var h).2.
Proof.
  intros Hinv.
  destruct (operators h !! op) as [O|] eqn:Hop.
  2:{ unfold remove_output, get_output_name. unfold_M. by rewrite Hop. }
  destruct (first_slot (outputs O) var) as [s|] eqn:Hs.
  2:{ by destruct (remove_output_absent h op O Hop var Hs) as (e & -> & _). }
  destruct (Hinv op O Hop) as (Hwf & Hnd & Hall).
  destruct (Hall s var (first_slot_elem _ _ _ Hs)) as (V & Hv & Hp).
  rewrite (remove_output_run h op O Hop var V s Hwf Hs Hv). cbn [snd].
  intros op' O' Hop'. cbn [operators variables] in *.
  destruct (decide (op' = op)) as [->|Hne].
  - rewrite lookup_insert_eq in Hop'. injection Hop' as <-. simpl.
    split_and!.
    + by apply dict_del_wf.
    + by apply dict_del_values_NoDup.
    + intros s' v' Hin.
      assert (v' ≠ var)
        by (eapply dict_del_first_slot; eauto using slots_holding_NoDup).
      rewrite lookup_insert_ne by done.
      apply (Hall s'). by eapply dict_del_elem.
  - rewrite lookup_insert_ne in Hop' by done.
    destruct (Hinv op' O' Hop') as (Hwf' & Hnd' & Hall').
    split_and!; [done..|]. intros s' v' Hin.
    destruct (Hall' s' v' Hin) as (V' & HV' & Hp').
    assert (v' ≠ var) by (intros ->; congruence).
    rewrite lookup_insert_ne by done. by exists V'.
Qed.

Lemma replace_output_outputs_consistent op v_old v_new h :
  outputs_consistent h → outputs_consistent (replace_output op v_old v_new h).2.
Proof.
  intros Hinv.
  unfold replace_output. unfold mbind at 1. unfold M_bind at 1.
  unfold get_output_name. unfold mbind at 1. unfold M_bind at 1.
  unfold read_op at 1.
  destruct (operators h !! op) as [O|] eqn:Hop; [|done].
  unfold lift at 1.
  destruct (find_name _ _ _ _) as [s| |]; [|done..].
  unfold mbind, M_bind.
  pose proof (remove_output_outputs_consistent op v_old h Hinv) as H1.
  destruct (remove_output op v_old h) as [[[]| |] h1]; [|done..].
  by apply append_output_outputs_consistent.
Qed.

(** Under the single-writer invariant a Variable is an output of at most
    one Operator, in at most one slot. *)
Lemma outputs_consistent_single_writer h op1 O1 s1 op2 O2 s2 var :
  outputs_consistent h →
  operators h !! op1 = Some O1 → (s1, var) ∈ outputs O1 →
  operators h !! op2 = Some O2 → (s2, var) ∈ outputs O2 →
  op1 = op2 ∧ s1 = s2.
Proof.
  intros Hinv Hop1 Hin1 Hop2 Hin2.
  destruct (Hinv op1 O1 Hop1) as (Hwf & Hnd & Hall1).
  destruct (Hinv op2 O2 Hop2) as (_ & _ & Hall2).
  destruct (Hall1 s1 var Hin1) as (V & HV & Hp).
  destruct (Hall2 s2 var Hin2) as (V' & HV' & Hp').
  assert (op1 = op2) as <- by congruence. split; [done|].
  assert (O2 = O1) as -> by congruence.
  apply list_elem_of_lookup in Hin1 as [i Hi], Hin2 as [j Hj].
  assert (i = j).
  { eapply NoDup_lookup; [exact Hnd| |].
    - by rewrite list_lookup_fmap, Hi.
    - by rewrite list_lookup_fmap, Hj. }
  subst j. congruence.
Qed.

(** The single-writer invariant is kept by every operation of the link
    protocol, on every Operator and Variable, whether the call returns or
    raises: a Variable in a slot of [op.outputs] has [op] as its
    [output_from], and no Variable is in two output slots. *)
Theorem link_protocol_keeps_outputs_consistent h op :
  outputs_consistent h →
  (∀ s var, outputs_consistent (append_output op s var h).2) ∧
  (∀ var, outputs_consistent (remove_output op var h).2) ∧
  (∀ old new, outputs_consistent (replace_output op old new h).2) ∧
  (∀ s var, outputs_consistent (append_input op s var h).2) ∧
  (∀ var, outputs_consistent (remove_input op var h).2) ∧
  (∀ old new, outputs_consistent (replace_input op old new h).2).
Proof.
  intros Hinv. split_and!.
  - intros s var. by apply append_output_outputs_consistent.
  - intros var. by apply remove_output_outputs_consistent.
  - intros old new. by apply replace_output_outputs_consistent.
  - intros s var. eapply same_outputs_consistent; [|done].
    apply append_input_same_outputs.
  - intros var. eapply same_outputs_consistent; [|done].
    apply remove_input_same_outputs.
  - intros old new. eapply same_outputs_consistent; [|done].
    apply replace_input_same_outputs.
Qed.

(** ** Constructors *)

Lemma empty_heap_consistent :
  inputs_consistent empty_heap ∧ outputs_consistent empty_heap.
Proof.
  split.
  - intros op O s var Hop. simpl in Hop. by rewrite lookup_empty in Hop.
  - intros op O Hop. simpl in Hop. by rewrite lookup_empty in Hop.
Qed.

Lemma fresh_op_None (h : heap) : operators h !! fresh (dom (operators h)) = None.
Proof. apply not_elem_of_dom. apply is_fresh. Qed.

Lemma fresh_var_None (h : heap) : variables h !! fresh (dom (variables h)) = None.
Proof. apply not_elem_of_dom. apply is_fresh. Qed.

Lemma Operator_new_consistent nm p h :
  (inputs_consistent h → inputs_consistent (Operator_new nm p h).2) ∧
  (outputs_consistent h → outputs_consistent (Operator_new nm p h).2).
Proof.
  unfold Operator_new, alloc_op. cbn [snd]. split.
  - intros Hinv op O s var Hop Hin. cbn [operators variables] in *.
    destruct (decide (op = fresh (dom (operators h)))) as [->|Hne].
    + rewrite lookup_insert_eq in Hop. injection Hop as <-.
      by apply elem_of_nil in Hin.
    + rewrite lookup_insert_ne in Hop by done. by eapply Hinv.
  - intros Hinv op O Hop. cbn [operators variables] in *.
    destruct (decide (op = fresh (dom (operators h)))) as [->|Hne].
    + rewrite lookup_insert_eq in Hop. injection Hop as <-. simpl.
      split_and!; [apply NoDup_nil_2..|].
      intros s var Hin. by apply elem_of_nil in Hin.
    + rewrite lookup_insert_ne in Hop by done. by apply Hinv.
Qed.

Lemma Variable_new_consistent shape order h :
  (inputs_consistent h → inputs_consistent (Variable_new shape order h).2) ∧
  (outputs_consistent h → outputs_consistent (Variable_new shape order h).2).
Proof.
  unfold Variable_new, Variable_init. unfold_M.
  destruct (decide (ndim order = length shape)); [|done].
  unfold alloc_var. cbn [snd]. split.
  - intros Hinv op O s var Hop Hin. cbn [operators variables] in *.
    destruct (Hinv op O s var Hop Hin) as (V & HV & Hmem).
    rewrite lookup_insert_ne; [by exists V|].
    intros <-. by rewrite fresh_var_None in HV.
  - intros Hinv op O Hop. cbn [operators variables] in *.
    destruct (Hinv op O Hop) as (Hwf & Hnd & Hall). split_and!; [done..|].
    intros s var Hin. destruct (Hall s var Hin) as (V & HV & Hp).
    rewrite lookup_insert_ne; [by exists V|].
    intros <-. by rewrite fresh_var_None in HV.
Qed.

Lemma unlinked_consistent :
  inputs_consistent unlinked ∧ outputs_consistent unlinked.
Proof.
  assert (Heq : unlinked =
    (Variable_new [1; 3; 8; 8] NCHW
       (Variable_new [1; 3; 8; 8] NCHW
          (Operator_new "conv2" None
             (Operator_new "conv" None empty_heap).2).2).2).2)
    by (vm_compute; reflexivity).
  rewrite Heq. destruct empty_heap_consistent as [Hi Ho]. split.
  - by do 2 apply Variable_new_consistent; do 2 apply Operator_new_consistent.
  - by do 2 apply Variable_new_consistent; do 2 apply Operator_new_consistent.
Qed.

Lemma link_protocol_keeps_outputs_consistent_witness :
  (∀ s var, outputs_consistent (append_output conv s var unlinked).2) ∧
  (∀ var, outputs_consistent (remove_output conv var unlinked).2) ∧
  (∀ old new, outputs_consistent (replace_output conv old new unlinked).2) ∧
  (∀ s var, outputs_consistent (append_input conv s var unlinked).2) ∧
  (∀ var, outputs_consistent (remove_input conv var unlinked).2) ∧
  (∀ old new, outputs_consistent (replace_input conv old new unlinked).2).
Proof.
  apply (link_protocol_keeps_outputs_consistent unlinked conv).
  exact (proj2 unlinked_consistent).
Defined.

(** A graph that satisfies both invariants still does after
    [Operator(name, parameters)] and after [Variable(shape, axis_order)],
    whether the construction returns or raises; the empty graph satisfies
    both. *)
Theorem constructors_keep_invariants h :
  inputs_consistent h →
  outputs_consistent h →
  (∀ nm p, inputs_consistent (Operator_new nm p h).2 ∧
           outputs_consistent (Operator_new nm p h).2) ∧
  (∀ shape order, inputs_consistent (Variable_new shape order h).2 ∧
                  outputs_consistent (Variable_new shape order h).2).
Proof.
  intros Hi Ho. split.
  - intros nm p. split; by apply Operator_new_consistent.
  - intros shape order. split; by apply Variable_new_consistent.
Qed.

Lemma constructors_keep_invariants_witness :
  (∀ nm p, inputs_consistent (Operator_new nm p empty_heap).2 ∧
           outputs_consistent (Operator_new nm p empty_heap).2) ∧
  (∀ shape order, inputs_consistent (Variable_new shape order empty_heap).2 ∧
                  outputs_consistent (Variable_new shape order empty_heap).2).
Proof.
  apply (constructors_keep_invariants empty_heap).
  - exact (proj1 empty_heap_consistent).
  - exact (proj2 empty_heap_consistent).
Defined.

(** [Variable(shape, axis_order)] raises the assertion error, and leaves the
    heap as it was, when [axis_order.ndim] is not [len(shape)]; otherwise it
    returns a reference that named no Variable before, to a Variable with
    the given shape and axis order, no consumer and no producer, whose
    attributes are the axis order alone; the Operators and the Variables
    that existed are as they were. *)
Theorem Variable_new_checks_ndim h shape0 order :
  (ndim order ≠ length shape0 →
     Variable_new shape0 order h = (Raise AssertionError, h)) ∧
  (ndim order = length shape0 →
     ∃ r h' V,
       Variable_new shape0 order h = (Return r, h') ∧
       variables h !! r = None ∧ variables h' !! r = Some V ∧
       shape V = shape0 ∧ axis_order V = order ∧
       input_to V = ∅ ∧ output_from V = None ∧
       attributes (var_node V) = [order] ∧
       operators h' = operators h ∧
       (∀ var, var ≠ r → variables h' !! var = variables h !! var)).
Proof.
  unfold Variable_new, Variable_init. unfold_M. split; intros Hn.
  - by rewrite decide_False.
  - rewrite decide_True by done. unfold alloc_var.
    eexists _, _, _. split; [done|]. cbn [operators variables].
    rewrite lookup_insert_eq. split_and!; try done.
    + apply fresh_var_None.
    + intros var Hne. by rewrite lookup_insert_ne.
Qed.

Lemma Variable_new_checks_ndim_witness :
  Variable_new [3; 8; 8] NCHW unlinked = (Raise AssertionError, unlinked) ∧
  ∃ r h' V,
    Variable_new [1; 3; 8; 8] NCHW unlinked = (Return r, h') ∧
    variables unlinked !! r = None ∧ variables h' !! r = Some V ∧
    shape V = [1; 3; 8; 8] ∧ axis_order V = NCHW ∧
    input_to V = ∅ ∧ output_from V = None ∧
    attributes (var_node V) = [NCHW] ∧
    operators h' = operators unlinked ∧
    (∀ var, var ≠ r → variables h' !! var = variables unlinked !! var).
Proof.
  split.
  - apply (proj1 (Variable_new_checks_ndim unlinked [3; 8; 8] NCHW)).
    simpl. lia.
  - apply (proj2 (Variable_new_checks_ndim unlinked [1; 3; 8; 8] NCHW)).
    reflexivity.
Defined.

(** ** The name of a Variable *)

(** On a Variable whose parameter bag is a mapping, [v.name] reads the
    value under the key "name", the empty string when there is none, and
    does not change the heap; after [v.name = n], [v.name] reads [n], the
    other keys of the bag are as they were, and so is everything else of
    the Variable and of the graph. *)
Theorem Variable_name_set_get h var V d n :
  variables h !! var = Some V →
  parameters (var_node V) = Some d →
  Variable_name var h = (Return (default (VStr "") (dict_get "name" d)), h) ∧
  ∃ h' V' d',
    Variable_set_name var n h = (Return tt, h') ∧
    Variable_name var h' = (Return (VStr n), h') ∧
    variables h' !! var = Some V' ∧
    parameters (var_node V') = Some d' ∧
    (∀ key, key ≠ "name" → dict_get key d' = dict_get key d) ∧
    attributes (var_node V') = attributes (var_node V) ∧
    shape V' = shape V ∧ axis_order V' = axis_order V ∧
    input_to V' = input_to V ∧ output_from V' = output_from V ∧
    operators h' = operators h ∧
    (∀ var', var' ≠ var → variables h' !! var' = variables h !! var').
Proof.
  intros Hv Hd. split.
  - unfold Variable_name. unfold_M. rewrite Hv, Hd. simpl.
    by destruct (dict_get "name" d).
  - unfold Variable_set_name. unfold_M. rewrite Hv, Hd.
    eexists _, _, _. split; [done|]. cbn [operators variables].
    unfold Variable_name. unfold_M. cbn [variables].
    rewrite !lookup_insert_eq. simpl.
    rewrite dict_get_set_eq. simpl. split_and!; try done.
    + intros key Hne. rewrite dict_get_set. by rewrite decide_False.
    + intros var' Hne. by rewrite lookup_insert_ne.
Qed.

Lemma Variable_name_set_get_witness :
  Variable_name v unlinked
    = (Return (default (VStr "") (dict_get "name" [])), unlinked) ∧
  ∃ h' V' d',
    Variable_set_name v "x" unlinked = (Return tt, h') ∧
    Variable_name v h' = (Return (VStr "x"), h') ∧
    variables h' !! v = Some V' ∧
    parameters (var_node V') = Some d' ∧
    (∀ key, key ≠ "name" → dict_get key d' = dict_get key []) ∧
    attributes (var_node V') = [NCHW] ∧
    shape V' = [1; 3; 8; 8] ∧ axis_order V' = NCHW ∧
    input_to V' = ∅ ∧ output_from V' = None ∧
    operators h' = operators unlinked ∧
    (∀ var', var' ≠ v → variables h' !! var' = variables unlinked !! var').
Proof.
  apply (Variable_name_set_get unlinked v
           (mkVariable (mkNode [NCHW] (Some [])) [1; 3; 8; 8] ∅ None NCHW)
           [] "x").
  - vm_compute; reflexivity.
  - reflexivity.
Defined.

(** ** More on change_axis_order *)

Lemma not_drops_non_unit_Forall (d : dict Axis Z) order :
  Forall (λ kv, kv.1 ∈ axes order ∨ kv.2 = 1) d → ¬ drops_non_unit d order.
Proof.
  rewrite Forall_forall. intros Hall (axis & size & Hin & Hnin & Hsz).
  by destruct (Hall _ Hin).
Qed.

(** After a successful [v.change_axis_order(order)], the mapping of [v] has
    exactly the axes of [order]: an axis that was in the mapping keeps its
    size, an axis that was not has size 1. *)
Theorem change_axis_order_keeps_axis_sizes h var order V :
  variables h !! var = Some V →
  ¬ drops_non_unit (shape_dict V) order →
  ∃ h' V',
    change_axis_order var order h = (Return tt, h') ∧
    variables h' !! var = Some V' ∧
    (∀ axis, axis ∈ axes order →
       dict_get axis (shape_dict V')
       = Some (default 1 (dict_get axis (shape_dict V)))) ∧
    (∀ axis size, axis ∈ axes order →
       dict_get axis (shape_dict V) = Some size →
       dict_get axis (shape_dict V') = Some size) ∧
    (∀ axis, axis ∉ axes order → dict_get axis (shape_dict V') = None).
Proof.
  intros Hv Hok.
  rewrite (change_axis_order_run h var order V Hv)
    by by apply not_drops_non_unit.
  eexists _, _. split; [done|]. cbn [variables].
  rewrite lookup_insert_eq. split; [done|].
  set (f := λ axis : Axis, default 1 (dict_get axis (shape_dict V))).
  assert (HD : ∀ axis,
            dict_get axis (shape_dict (set_shape_order
                             (reshaped (shape_dict V) order) order V))
            = if decide (axis ∈ axes order) then Some (f axis) else None).
  { intros axis. unfold shape_dict at 1, get_shape_dict. simpl.
    unfold reshaped. rewrite (zip_graph f). apply dict_get_of_graph. }
  split_and!.
  - intros axis Hin. by rewrite HD, decide_True.
  - intros axis size Hin Hsz. rewrite HD, decide_True by done.
    unfold f. by rewrite Hsz.
  - intros axis Hnin. by rewrite HD, decide_False.
Qed.

Lemma change_axis_order_keeps_axis_sizes_witness :
  let V := mkVariable (mkNode [NCHW] (Some [])) [1; 3; 8; 8] ∅ None NCHW in
  ∃ h' V',
    change_axis_order v CHW unlinked = (Return tt, h') ∧
    variables h' !! v = Some V' ∧
    (∀ axis, axis ∈ axes CHW →
       dict_get axis (shape_dict V')
       = Some (default 1 (dict_get axis (shape_dict V)))) ∧
    (∀ axis size, axis ∈ axes CHW →
       dict_get axis (shape_dict V) = Some size →
       dict_get axis (shape_dict V') = Some size) ∧
    (∀ axis, axis ∉ axes CHW → dict_get axis (shape_dict V') = None).
Proof.
  intros V. apply (change_axis_order_keeps_axis_sizes unlinked v CHW V).
  - vm_compute; reflexivity.
  - apply not_drops_non_unit_Forall.
    apply (bool_decide_unpack _). vm_compute. exact I.
Defined.

(** A successful [v.change_axis_order(order)] changes the shape and the
    axis order of [v] and nothing else: the shape has one entry per axis of
    [order] (so [v.ndim] is the number of axes of [order]); the attribute
    set of [v] is not updated, and neither are its parameters, its
    consumers and its producer; the Operators and the other Variables are
    as they were. *)
Theorem change_axis_order_frame h var order V :
  variables h !! var = Some V →
  ¬ drops_non_unit (shape_dict V) order →
  ∃ h' V',
    change_axis_order var order h = (Return tt, h') ∧
    variables h' !! var = Some V' ∧
    length (shape V') = length (axes order) ∧
    Variable_ndim var h' = (Return (length (axes order)), h') ∧
    var_node V' = var_node V ∧
    input_to V' = input_to V ∧ output_from V' = output_from V ∧
    operators h' = operators h ∧
    (∀ var', var' ≠ var → variables h' !! var' = variables h !! var').
Proof.
  intros Hv Hok.
  rewrite (change_axis_order_run h var order V Hv)
    by by apply not_drops_non_unit.
  eexists _, (set_shape_order (reshaped (shape_dict V) order) order V).
  split; [done|].
  unfold Variable_ndim. unfold_M. cbn [operators variables].
  rewrite !lookup_insert_eq. simpl. unfold reshaped. rewrite !length_fmap.
  split_and!; try done.
  intros var' Hne. by rewrite lookup_insert_ne.
Qed.

Lemma change_axis_order_frame_witness :
  let V := mkVariable (mkNode [NCHW] (Some [])) [1; 3; 8; 8] ∅ None NCHW in
  ∃ h' V',
    change_axis_order v NCHW unlinked = (Return tt, h') ∧
    variables h' !! v = Some V' ∧
    length (shape V') = length (axes NCHW) ∧
    Variable_ndim v h' = (Return (length (axes NCHW)), h') ∧
    var_node V' = var_node V ∧
    input_to V' = input_to V ∧ output_from V' = output_from V ∧
    operators h' = operators unlinked ∧
    (∀ var', var' ≠ v → variables h' !! var' = variables unlinked !! var').
Proof.
  intros V. apply (change_axis_order_frame unlinked v NCHW V).
  - vm_compute; reflexivity.
  - apply not_drops_non_unit_Forall.
    apply (bool_decide_unpack _). vm_compute. exact I.
Defined.

Lemma dict_get_is_Some {K V} `{EqDecision K} (k : K) (d : dict K V) :
  k ∈ d.*1 → ∃ v, dict_get k d = Some v ∧ (k, v) ∈ d.
Proof.
  intros Hin. destruct (dict_get k d) as [v|] eqn:Hg.
  - exists v. split; [done|]. by apply dict_get_Some_elem.
  - exfalso. induction d as [|[k0 v0] d IH]; [by apply elem_of_nil in Hin|].
    simpl in *. destruct (decide (k0 = k)) as [->|Hne]; [done|].
    apply elem_of_cons in Hin as [->|Hin]; [done|auto].
Qed.

Lemma shape_product_Permutation (l1 l2 : list Z) :
  l1 ≡ₚ l2 → shape_product l1 = shape_product l2.
Proof.
  unfold shape_product. induction 1; simpl; [done|congruence|lia|congruence].
Qed.

Lemma shape_product_fmap_filter (f : Axis → Z) (P : Axis → Prop)
    `{∀ x, Decision (P x)} (l : list Axis) :
  (∀ a, a ∈ l → ¬ P a → f a = 1) →
  shape_product (f <$> l) = shape_product (f <$> filter P l).
Proof.
  unfold shape_product. induction l as [|a l IH]; intros Hone; [done|].
  assert (IH' : foldr Z.mul 1 (f <$> l) = foldr Z.mul 1 (f <$> filter P l)).
  { apply IH. intros b Hb. apply Hone. by right. }
  destruct (decide (P a)) as [HP|HP].
  - rewrite filter_cons_True by done. rewrite !fmap_cons. cbn [foldr].
    by rewrite IH'.
  - rewrite filter_cons_False by done. rewrite fmap_cons. cbn [foldr].
    rewrite (Hone a) by (done || left). rewrite IH'. lia.
Qed.

(** A successful [v.change_axis_order(order)] keeps the number of elements:
    for a Variable whose axis order has distinct axes, one per entry of the
    shape, and an [order] with distinct axes, the product of the entries of
    the new shape is the product of the entries of the old one. *)
Theorem change_axis_order_keeps_shape_product h var order V :
  variables h !! var = Some V →
  NoDup (axes (axis_order V)) →
  length (shape V) = length (axes (axis_order V)) →
  NoDup (axes order) →
  ¬ drops_non_unit (shape_dict V) order →
  ∃ h' V',
    change_axis_order var order h = (Return tt, h') ∧
    variables h' !! var = Some V' ∧
    shape_product (shape V') = shape_product (shape V).
Proof.
  intros Hv HndA Hlen HndB Hok.
  rewrite (change_axis_order_run h var order V Hv)
    by by apply not_drops_non_unit.
  eexists _, (set_shape_order (reshaped (shape_dict V) order) order V).
  split; [done|]. cbn [variables]. rewrite lookup_insert_eq.
  split; [done|]. simpl.
  assert (HD : shape_dict V = zip (axes (axis_order V)) (shape V)).
  { unfold shape_dict, get_shape_dict.
    apply dict_of_pairs_NoDup. by rewrite fst_zip by lia. }
  assert (Hkeys : (shape_dict V).*1 = axes (axis_order V))
    by (rewrite HD; apply fst_zip; lia).
  set (f := λ axis : Axis, default 1 (dict_get axis (shape_dict V))).
  assert (Hshape : shape V = f <$> axes (axis_order V)).
  { unfold f. rewrite HD. symmetry. by apply reshaped_zip. }
  rewrite Hshape. unfold reshaped. fold f.
  rewrite (shape_product_fmap_filter f (λ a, a ∈ axes (axis_order V))).
  2:{ intros a _ Hnin. unfold f. rewrite dict_get_None; [done|].
      by rewrite Hkeys. }
  rewrite (shape_product_fmap_filter f (λ a, a ∈ axes order)
             (axes (axis_order V))).
  2:{ intros a Hin Hnin. unfold f.
      rewrite <- Hkeys in Hin.
      destruct (dict_get_is_Some a (shape_dict V) Hin) as (x & -> & Hx).
      simpl. destruct (not_drops_non_unit _ _ Hok a x Hx); done. }
  apply shape_product_Permutation, fmap_Permutation.
  apply NoDup_Permutation; [by apply NoDup_filter..|].
  intros a. rewrite !list_elem_of_filter. tauto.
Qed.

Lemma change_axis_order_keeps_shape_product_witness :
  ∃ h' V',
    change_axis_order v CHW unlinked = (Return tt, h') ∧
    variables h' !! v = Some V' ∧
    shape_product (shape V') = shape_product [1; 3; 8; 8].
Proof.
  apply (change_axis_order_keeps_shape_product unlinked v CHW
           (mkVariable (mkNode [NCHW] (Some [])) [1; 3; 8; 8] ∅ None NCHW)).
  - vm_compute; reflexivity.
  - apply (bool_decide_unpack _). vm_compute. exact I.
  - reflexivity.
  - apply (bool_decide_unpack _). vm_compute. exact I.
  - apply not_drops_non_unit_Forall.
    apply (bool_decide_unpack _). vm_compute. exact I.
Defined.

(** ** remove_input on a Variable in several slots *)

Lemma dict_del_slots_holding (items : dict string vref) var s :
  (length (slots_holding items var)
   ≤ S (length (slots_holding (dict_del s items) var)))%nat.
Proof.
  unfold slots_holding. induction items as [|[k0 v0] items IH]; simpl; [lia|].
  destruct (decide (k0 = s)) as [->|Hne].
  - destruct (decide (v0 = var)) as [->|Hv].
    + rewrite filter_cons_True by done. simpl. lia.
    + rewrite filter_cons_False by done. lia.
  - destruct (decide (v0 = var)) as [->|Hv].
    + rewrite !filter_cons_True by done. simpl. lia.
    + rewrite !filter_cons_False by done. lia.
Qed.

(** Whenever [var] holds two or more input slots of [op] (and [op] is in
    [var.input_to]), [op.remove_input(var)] returns and leaves a graph whose
    inputs are not consistent: [var] is still in a slot of [op.inputs] and
    [op] is not in [var.input_to]. *)
Theorem remove_input_of_shared_variable_breaks_consistency h op O var V :
  operators h !! op = Some O →
  variables h !! var = Some V →
  op ∈ input_to V →
  (2 ≤ length (slots_holding (inputs O) var))%nat →
  ∃ h' O' V' s',
    remove_input op var h = (Return tt, h') ∧
    operators h' !! op = Some O' ∧ (s', var) ∈ inputs O' ∧
    variables h' !! var = Some V' ∧ (op ∉ input_to V') ∧
    ¬ inputs_consistent h'.
Proof.
  intros Hop Hv Hin Hlen.
  destruct (first_slot (inputs O) var) as [s|] eqn:Hs.
  2:{ apply first_slot_None in Hs. exfalso.
      destruct (slots_holding (inputs O) var) as [|[k x] rest] eqn:Hf;
        [simpl in Hlen; lia|].
      assert (Hel : (k, x) ∈ slots_holding (inputs O) var) by (rewrite Hf; left).
      apply list_elem_of_filter in Hel as [Heq Hel]. simpl in Heq. subst x.
      apply Hs. apply list_elem_of_fmap. by exists (k, var). }
  rewrite (remove_input_run h op O Hop var V s Hs Hv), decide_True by done.
  pose proof (dict_del_slots_holding (inputs O) var s) as Hdel.
  destruct (slots_holding (dict_del s (inputs O)) var) as [|[s' x] rest] eqn:Hf;
    [simpl in Hdel; lia|].
  assert (Hel : (s', x) ∈ slots_holding (dict_del s (inputs O)) var)
    by (rewrite Hf; left).
  apply list_elem_of_filter in Hel as [Heq Hel]. simpl in Heq. subst x.
  assert (Hnot : op ∉ input_to V ∖ {[op]}).
  { rewrite elem_of_difference, elem_of_singleton. intros [_ Hn]. by apply Hn. }
  eexists _, _, _, s'. split; [done|]. cbn [operators variables].
  rewrite !lookup_insert_eq. split_and!; try done.
  intros Hinv.
  destruct (Hinv op (set_inputs (dict_del s (inputs O)) O) s' var)
    as (V' & HV' & Hmem); cbn [operators variables].
  - apply lookup_insert_eq.
  - done.
  - cbn [variables] in HV'. rewrite lookup_insert_eq in HV'.
    injection HV' as <-. by apply Hnot.
Qed.

Lemma remove_input_of_shared_variable_breaks_consistency_witness :
  ∃ h' O' V' s',
    remove_input conv v conv_ab_v = (Return tt, h') ∧
    operators h' !! conv = Some O' ∧ (s', v) ∈ inputs O' ∧
    variables h' !! v = Some V' ∧ (conv ∉ input_to V') ∧
    ¬ inputs_consistent h'.
Proof.
  apply (remove_input_of_shared_variable_breaks_consistency conv_ab_v conv
           (mkOperator (mkNode [] None) "conv" [("a", v); ("b", v)] []) v
           (mkVariable (mkNode [NCHW] (Some [])) [1; 3; 8; 8] {[conv]} None NCHW)).
  - vm_compute; reflexivity.
  - vm_compute; reflexivity.
  - simpl. apply elem_of_singleton_2. reflexivity.
  - vm_compute. lia.
Defined.
